(** * The chat back end of server.js: session histories and the turn handler

    A shallow embedding of [app.post('/chat')] (and of the fragment loop of
    the older [app.post('/interview')]) together with the properties of the
    session/history protocol.

    The JavaScript is modelled as it is written:
    - request fields and turn texts are JavaScript values ([JsVal]);
    - [chatHistories] is a [Map] from keys to array {e references}; the
      arrays live in a heap, so that [chatHistories.get(sessionId)] hands out
      the stored array itself and [push] on it is seen by the store;
    - the handler runs in a small state-and-exception monad that also records
      the observable effects (external calls, console output);
    - the hosted model is a parameter: a function from the outgoing call to
      what the service does with it. *)

From stdpp Require Import base gmap strings list pretty.

Local Open Scope string_scope.
Local Open Scope list_scope.
Local Open Scope stdpp_scope.

(** ** JavaScript values *)

(** The scalar values [express.json()] can deliver for a body field, with
    [VUndefined] for an absent field.  Numbers are restricted to integers;
    where the printed form of a number matters ([to_string]) the properties
    below are stated for safe integers only. *)
Inductive JsVal :=
  | VUndefined
  | VNull
  | VBool (b : bool)
  | VNum (n : Z)
  | VStr (s : string).

Global Instance JsVal_eq_dec : EqDecision JsVal.
Proof. solve_decision. Defined.

Global Instance JsVal_countable : Countable JsVal.
Proof.
  refine (inj_countable'
    (λ v, match v with
          | VUndefined => inl (inl ())
          | VNull => inl (inr ())
          | VBool b => inr (inl b)
          | VNum n => inr (inr (inl n))
          | VStr s => inr (inr (inr s))
          end)
    (λ x, match x with
          | inl (inl _) => VUndefined
          | inl (inr _) => VNull
          | inr (inl b) => VBool b
          | inr (inr (inl n)) => VNum n
          | inr (inr (inr s)) => VStr s
          end) _).
  by intros [].
Defined.

(** [!!v] of JavaScript: the falsy values are [undefined], [null], [false],
    [0] and the empty string. *)
Definition truthy (v : JsVal) : bool :=
  match v with
  | VUndefined | VNull => false
  | VBool b => b
  | VNum n => negb (n =? 0)%Z
  | VStr s => negb (String.eqb s "")
  end.

(** [a === b] on scalars. *)
Definition strict_eq (a b : JsVal) : bool := bool_decide (a = b).

(** [typeof v]. *)
Definition js_typeof (v : JsVal) : string :=
  match v with
  | VUndefined => "undefined"
  | VNull => "object"
  | VBool _ => "boolean"
  | VNum _ => "number"
  | VStr _ => "string"
  end.

(** [String(v)], the conversion [+=] applies to its right operand when the
    left one is a string.  For a number this is its decimal digits, which is
    what JavaScript prints for every safe integer; JavaScript switches to
    exponent form from 1e21 on, where this definition does not follow it. *)
Definition to_string (v : JsVal) : string :=
  match v with
  | VUndefined => "undefined"
  | VNull => "null"
  | VBool true => "true"
  | VBool false => "false"
  | VNum n => pretty n
  | VStr s => s
  end.

(** [s.includes(sub)]. *)
Fixpoint includes (s sub : string) : bool :=
  String.prefix sub s ||
  match s with
  | EmptyString => false
  | String _ rest => includes rest sub
  end.

(** ** Data model *)

Inductive Role := user | model.

Global Instance Role_eq_dec : EqDecision Role.
Proof. solve_decision. Defined.

(** An entry of a session history: [{ role, text }]. *)
Record Turn := { role : Role; text : JsVal }.

Global Instance Turn_eq_dec : EqDecision Turn.
Proof. solve_decision. Defined.

(** [{ text }], a part of a content of the external API. *)
Record Part := { part_text : JsVal }.

(** [{ role, parts }], a history entry in the external API's format. *)
Record Content := { content_role : Role; parts : list Part }.

(** A thrown [Error]; only its [message] is inspected. *)
Record Error := { message : string }.

(** What calling [chunk.text()] does. *)
Inductive CallResult :=
  | Returns (v : JsVal)
  | Throws (e : Error).

(** The [text] property of a streamed chunk: a method, or a plain value. *)
Inductive TextField :=
  | TextFunction (r : CallResult)
  | TextValue (v : JsVal).

(** [chunk.candidates[i].content] and [chunk.candidates[i]]. *)
Record CandidateContent := { candidate_parts : option (list Part) }.
Record Candidate := { content : option CandidateContent }.

Record Chunk := { chunk_text : TextField; candidates : option (list Candidate) }.

(** [aiStreamResponse.stream]: finitely many chunks, then either completion
    or a failure raised by the iterator. *)
Record Stream := { chunks : list Chunk; stream_failure : option Error }.

(** What [startChat({history}).sendMessageStream(message)] does. *)
Inductive SendResult :=
  | Rejected (e : Error)
  | Streaming (s : Stream).

Definition Gemini : Type := list Content → JsVal → SendResult.

(** [req.body] after destructuring. *)
Record Request := { sessionId : JsVal; userResponse : JsVal }.

Inductive Body :=
  | ErrorBody (error : string)
  | ChatBody (response : string) (history : list Turn).

Record Response := { status : nat; body : Body }.

(** Observable effects of a request, in the order they happen. *)
Inductive Event :=
  | SendMessageStream (history : list Content) (message : JsVal)
  | ConsoleWarn (type : string) (value : JsVal)
  | ConsoleError (e : Error).

(** ** The store: a heap of arrays and the [chatHistories] map *)

Definition loc := nat.

Record State := {
  heap : gmap loc (list Turn);
  chatHistories : gmap JsVal loc
}.

Definition init : State := {| heap := ∅; chatHistories := ∅ |}.

(** The array a reference points to. *)
Definition deref (st : State) (l : loc) : list Turn :=
  default [] (heap st !! l).

(** The history stored for a session: empty if the session is unknown. *)
Definition stored_history (st : State) (sid : JsVal) : list Turn :=
  match chatHistories st !! sid with
  | Some l => deref st l
  | None => []
  end.

(** ** The handler monad: state, exceptions and an effect log *)

Inductive Outcome (A : Type) :=
  | Normal (a : A)
  | Thrown (e : Error).
Arguments Normal {A} a.
Arguments Thrown {A} e.

Definition M (A : Type) : Type := State → Outcome A * State * list Event.

Global Instance M_ret : MRet M := λ A a st, (Normal a, st, []).

Global Instance M_bind : MBind M := λ A B f m st,
  match m st with
  | (Normal a, st', ev) =>
      let '(r, st'', ev') := f a st' in (r, st'', ev ++ ev')
  | (Thrown e, st', ev) => (Thrown e, st', ev)
  end.

Definition throw {A} (e : Error) : M A := λ st, (Thrown e, st, []).

Definition emit (e : Event) : M () := λ st, (Normal (), st, [e]).

(** [try { body } catch (error) { handler }]: what [body] did to the state
    before it threw stays done. *)
Definition try_catch {A} (body : M A) (handler : Error → M A) : M A := λ st,
  match body st with
  | (Normal a, st', ev) => (Normal a, st', ev)
  | (Thrown e, st', ev) =>
      let '(r, st'', ev') := handler e st' in (r, st'', ev ++ ev')
  end.

(** [[]]: a fresh, empty array. *)
Definition new_array : M loc := λ st,
  let l := fresh (dom (heap st)) in
  (Normal l, {| heap := <[l := []]> (heap st); chatHistories := chatHistories st |}, []).

(** [chatHistories.get(sessionId) || []]: an array reference is truthy, so a
    known session yields the stored array itself. *)
Definition get_or_new (sid : JsVal) : M loc := λ st,
  match chatHistories st !! sid with
  | Some l => (Normal l, st, [])
  | None => new_array st
  end.

(** Reading an array (for [.length], [.map] and serialisation). *)
Definition read (l : loc) : M (list Turn) := λ st, (Normal (deref st l), st, []).

(** [array.push(t)], in place. *)
Definition pushed (l : loc) (t : Turn) (st : State) : State :=
  {| heap := <[l := deref st l ++ [t]]> (heap st);
     chatHistories := chatHistories st |}.

Definition push (l : loc) (t : Turn) : M () := λ st, (Normal (), pushed l t st, []).

(** [chatHistories.set(sessionId, array)]. *)
Definition bound (sid : JsVal) (l : loc) (st : State) : State :=
  {| heap := heap st; chatHistories := <[sid := l]> (chatHistories st) |}.

Definition map_set (sid : JsVal) (l : loc) : M () := λ st, (Normal (), bound sid l st, []).

(** ** The external call *)

(** [model.startChat({ history }).sendMessageStream(message)], awaited.  The
    model identifier, the system instruction and the generation configuration
    are the same constants on every call and are left out. *)
Definition sendMessageStream (gemini : Gemini) (history : list Content)
    (message : JsVal) : M Stream :=
  emit (SendMessageStream history message);;
  match gemini history message with
  | Rejected e => throw e
  | Streaming s => mret s
  end.

(** [item => ({ role: item.role, parts: [{ text: item.text }] })]. *)
Definition toContent (item : Turn) : Content :=
  {| content_role := role item; parts := [ {| part_text := text item |} ] |}.

(** ** [app.post('/chat')] *)

Definition start_conversation : string := "Start conversation with Tina.".

Definition missing_message : string :=
  "Missing sessionId or userResponse in request body.".

Definition retry_message : string :=
  "Failed to get a response from Tina. Please try again.".

Definition role_order_marker : string :=
  "First content should be with role 'user', got model".

Definition resync_message : string :=
  "There was an internal chat history synchronization issue. Please refresh the page and try again.".

(** [chunk.text()]: calling something that is not a function is a
    [TypeError]. *)
Definition call_text (chunk : Chunk) : M JsVal :=
  match chunk_text chunk with
  | TextFunction (Returns v) => mret v
  | TextFunction (Throws e) => throw e
  | TextValue _ => throw {| message := "chunk.text is not a function" |}
  end.

(** [for await (const chunk of aiStreamResponse.stream) { ... }] of [/chat],
    with [modelResponse] as accumulator. *)
Fixpoint for_await_chat (cs : list Chunk) (failure : option Error)
    (modelResponse : string) : M string :=
  match cs with
  | [] =>
      match failure with
      | None => mret modelResponse
      | Some e => throw e
      end
  | chunk :: rest =>
      chunkText ← call_text chunk;
      if String.eqb (js_typeof chunkText) "string" then
        for_await_chat rest failure (modelResponse +:+ to_string chunkText)
      else
        emit (ConsoleWarn (js_typeof chunkText) chunkText);;
        for_await_chat rest failure modelResponse
  end.

(** The [catch] block of [/chat]. *)
Definition chat_catch (error : Error) : M Response :=
  emit (ConsoleError error);;
  let errorMessage :=
    if includes (message error) role_order_marker then resync_message
    else retry_message in
  mret {| status := 500; body := ErrorBody errorMessage |}.

(** The handler.  [res.json] serialises the array as it is at that moment,
    hence the [read] before the response is built. *)
Definition chat (gemini : Gemini) (req : Request) : M Response :=
  let sessionId := sessionId req in
  let userResponse := userResponse req in
  if negb (truthy sessionId) || strict_eq userResponse VUndefined then
    mret {| status := 400; body := ErrorBody missing_message |}
  else
    currentSessionHistory ← get_or_new sessionId;
    try_catch
      (h ← read currentSessionHistory;
       aiStreamResponse ←
         (if (length h =? 0)%nat && strict_eq userResponse (VStr "") then
            sendMessageStream gemini [] (VStr start_conversation)
          else
            push currentSessionHistory {| role := user; text := userResponse |};;
            h' ← read currentSessionHistory;
            sendMessageStream gemini (toContent <$> h') userResponse);
       modelResponse ←
         for_await_chat (chunks aiStreamResponse) (stream_failure aiStreamResponse) "";
       h ← read currentSessionHistory;
       (if (length h =? 0)%nat && strict_eq userResponse (VStr "") then
          push currentSessionHistory {| role := user; text := VStr start_conversation |}
        else mret ());;
       push currentSessionHistory {| role := model; text := VStr modelResponse |};;
       map_set sessionId currentSessionHistory;;
       h ← read currentSessionHistory;
       mret {| status := 200; body := ChatBody modelResponse h |})
      chat_catch.

(** ** The fragment loop of [app.post('/interview')] *)

(** The guarded path [chunk.candidates[0].content.parts[0].text]: [Some]
    exactly when the five-fold [&&] guard of the handler holds. *)
Definition nested_text (chunk : Chunk) : option JsVal :=
  match candidates chunk with
  | Some (candidate0 :: _) =>
      match content candidate0 with
      | Some c =>
          match candidate_parts c with
          | Some (part0 :: _) => Some (part_text part0)
          | _ => None
          end
      | None => None
      end
  | _ => None
  end.

(** [for await (const chunk of apiResponse.stream) { ... }] of [/interview],
    with [fullResponse] as accumulator. *)
Fixpoint for_await_interview (cs : list Chunk) (failure : option Error)
    (fullResponse : string) : M string :=
  match cs with
  | [] =>
      match failure with
      | None => mret fullResponse
      | Some e => throw e
      end
  | chunk :: rest =>
      match chunk_text chunk with
      | TextFunction (Returns v) =>
          for_await_interview rest failure (fullResponse +:+ to_string v)
      | TextFunction (Throws e) => throw e
      | TextValue v =>
          if String.eqb (js_typeof v) "string" then
            for_await_interview rest failure (fullResponse +:+ to_string v)
          else
            emit (ConsoleWarn (js_typeof v) v);;
            match nested_text chunk with
            | Some t => for_await_interview rest failure (fullResponse +:+ to_string t)
            | None => for_await_interview rest failure fullResponse
            end
      end
  end.

(** ** Running requests *)

(** A string fragment as the SDK delivers it: [text()] returns the string. *)
Definition fragment (s : string) : Chunk :=
  {| chunk_text := TextFunction (Returns (VStr s)); candidates := None |}.

(** A service that answers every call with the given fragments. *)
Definition answers (ss : list string) : Gemini :=
  λ _ _, Streaming {| chunks := fragment <$> ss; stream_failure := None |}.

(** A service that rejects every call. *)
Definition rejects (e : Error) : Gemini := λ _ _, Rejected e.

(** A service whose stream breaks after the given fragments. *)
Definition breaks_after (ss : list string) (e : Error) : Gemini :=
  λ _ _, Streaming {| chunks := fragment <$> ss; stream_failure := Some e |}.

Definition state_after {A} (r : Outcome A * State * list Event) : State := r.1.2.
Definition events_of {A} (r : Outcome A * State * list Event) : list Event := r.2.
Definition result_of {A} (r : Outcome A * State * list Event) : Outcome A := r.1.1.

(** Requests served one after the other, each with the service behaviour it
    meets. *)
Fixpoint serve (rs : list (Gemini * Request)) (st : State) : State :=
  match rs with
  | [] => st
  | (gemini, req) :: rest => serve rest (state_after (chat gemini req st))
  end.

(** The external calls among the effects of a request. *)
Definition external_calls (ev : list Event) : list (list Content * JsVal) :=
  omap (λ e, match e with
             | SendMessageStream h m => Some (h, m)
             | _ => None
             end) ev.

(** The text [/chat] takes from one fragment: what [chunk.text()] returns if
    that is a string, nothing otherwise. *)
Definition extracted_text (chunk : Chunk) : string :=
  match chunk_text chunk with
  | TextFunction (Returns v) =>
      if String.eqb (js_typeof v) "string" then to_string v else ""
  | _ => ""
  end.

(** ** The shape of a request and of its outcome *)

(** The request passes the guard at the top of the handler. *)
Definition validated (req : Request) : bool :=
  truthy (sessionId req) && negb (strict_eq (userResponse req) VUndefined).

(** The condition of the first branch: nothing stored and an empty
    [userResponse]. *)
Definition initial_contact (st : State) (req : Request) : bool :=
  (length (stored_history st (sessionId req)) =? 0)%nat &&
  strict_eq (userResponse req) (VStr "").

Definition user_turn (req : Request) : Turn :=
  {| role := user; text := userResponse req |}.

Definition opening_turn : Turn := {| role := user; text := VStr start_conversation |}.

Definition model_turn (reply : string) : Turn := {| role := model; text := VStr reply |}.

Definition error_response (e : Error) : Response :=
  {| status := 500;
     body := ErrorBody (if includes (message e) role_order_marker
                        then resync_message else retry_message) |}.

(** The reply accumulated from a stream, or the error that ends the loop. *)
Definition accumulated (s : Stream) : Outcome string :=
  result_of (for_await_chat (chunks s) (stream_failure s) "" init).

(** The failure, if any, of the external call or of the accumulation of its
    reply. *)
Definition service_failure (gemini : Gemini) (h : list Content) (m : JsVal) :
    option Error :=
  match gemini h m with
  | Rejected e => Some e
  | Streaming s =>
      match accumulated s with
      | Normal _ => None
      | Thrown e => Some e
      end
  end.

(** The history and the message of the call a validated request makes. *)
Definition outgoing (st : State) (req : Request) : list Content * JsVal :=
  if initial_contact st req then ([], VStr start_conversation)
  else (toContent <$> (stored_history st (sessionId req) ++ [user_turn req]),
        userResponse req).

(** The history the turn commits when the service answers with [reply]. *)
Definition committed (st : State) (req : Request) (reply : string) : list Turn :=
  stored_history st (sessionId req)
    ++ [if initial_contact st req then opening_turn else user_turn req]
    ++ [model_turn reply].

(** The history found in the store after a turn that failed. *)
Definition left_behind (st : State) (req : Request) : list Turn :=
  if initial_contact st req then stored_history st (sessionId req)
  else match chatHistories st !! sessionId req with
       | Some _ => stored_history st (sessionId req) ++ [user_turn req]
       | None => []
       end.

(** ** Alternation of roles *)

Definition other (r : Role) : Role :=
  match r with user => model | model => user end.

(** The roles of [h] alternate, starting with [expected]. *)
Fixpoint alternates (expected : Role) (h : list Turn) : bool :=
  match h with
  | [] => true
  | t :: rest => bool_decide (role t = expected) && alternates (other expected) rest
  end.

(** Turns of one session served one after the other, all answered 200. *)
Inductive successful_turns (sid : JsVal) : nat → State → State → Prop :=
  | turns_none st : successful_turns sid 0 st st
  | turns_more n st st' gemini req resp :
      successful_turns sid n st st' →
      sessionId req = sid →
      result_of (chat gemini req st') = Normal resp →
      status resp = 200 →
      successful_turns sid (S n) st (state_after (chat gemini req st')).

(** ** Concrete sessions *)

Definition s1 : JsVal := VStr "s1".

Definition open_request : Request := {| sessionId := s1; userResponse := VStr "" |}.

Definition yes_request : Request :=
  {| sessionId := s1; userResponse := VStr "Yes, go ahead" |}.

Definition unavailable : Error := {| message := "503 Service Unavailable" |}.

(** The store after scenario A: [s1] opened and greeted. *)
Definition after_opening : State :=
  state_after (chat (answers ["Hi, "; "I'm Tina."]) open_request init).

(** A fragment whose [text()] yields [undefined] while the nested alternate
    field holds a text. *)
Definition degraded_fragment : Chunk :=
  {| chunk_text := TextFunction (Returns VUndefined);
     candidates := Some [ {| content := Some {| candidate_parts :=
                               Some [ {| part_text := VStr "hello" |} ] |} |} ] |}.

(** A fragment whose [text] property is missing, with the same nested field. *)
Definition textless_fragment : Chunk :=
  {| chunk_text := TextValue VUndefined;
     candidates := candidates degraded_fragment |}.


(** ** [app.post('/interview')] *)

(** The text [/interview] takes from one fragment: the result of [text()]
    when [text] is a method, the property itself when it is a string, the
    nested alternate text when that path exists, nothing otherwise; always
    converted by [+=]. *)
Definition interview_text (chunk : Chunk) : string :=
  match chunk_text chunk with
  | TextFunction (Returns v) => to_string v
  | TextFunction (Throws _) => ""
  | TextValue v =>
      if String.eqb (js_typeof v) "string" then to_string v
      else match nested_text chunk with
           | Some t => to_string t
           | None => ""
           end
  end.

Module Interview.

(** [req.body] after destructuring. *)
Record Request := { sessionId : JsVal; jobTitle : JsVal; userResponse : JsVal }.

(** The double quote character of the template literals. *)
Definition quote : string := String (Ascii.ascii_of_nat 34) "".

(** [systemInstruction.parts]: the first part names the job title. *)
Definition systemInstruction (jobTitle : JsVal) : list Part :=
  [ {| part_text := VStr ("You are an AI interviewer for a job titled "
                          +:+ quote +:+ to_string jobTitle +:+ quote +:+ ".") |};
    {| part_text := VStr "Your goal is to conduct a mock interview by asking relevant questions." |};
    {| part_text := VStr ("Start by asking the user to " +:+ quote
                          +:+ "Tell me about yourself." +:+ quote +:+ ".") |};
    {| part_text := VStr "After that, ask up to 6 follow-up questions one at a time, based on the user's responses and the job title." |};
    {| part_text := VStr "Ensure your questions are typical for a job interview." |};
    {| part_text := VStr "Once the 6 questions are asked, provide constructive feedback on the user's answers and interview performance." |};
    {| part_text := VStr "Keep your responses concise and professional." |} ].

(** The hosted model, told the system instruction of the request. *)
Definition Gemini : Type := list Part → list Content → JsVal → SendResult.

Definition missing_message : string :=
  "Missing sessionId, jobTitle, or userResponse".

Definition failure_message : string :=
  "Failed to get response from AI interviewer.".

Definition start_interview : string := "start interview".

(** The handler.  The chat is started with the stored history as it is;
    the turns of this request are pushed only after the reply has been
    accumulated. *)
Definition interview (gemini : Gemini) (req : Request) : M Response :=
  let sessionId := sessionId req in
  let jobTitle := jobTitle req in
  let userResponse := userResponse req in
  if negb (truthy sessionId) || negb (truthy jobTitle)
     || strict_eq userResponse VUndefined then
    mret {| status := 400; body := ErrorBody missing_message |}
  else
    history ← get_or_new sessionId;
    try_catch
      (h ← read history;
       apiResponse ←
         (if (length h =? 0)%nat then
            sendMessageStream (gemini (systemInstruction jobTitle)) (toContent <$> h)
              (if truthy userResponse then userResponse else VStr start_interview)
          else
            sendMessageStream (gemini (systemInstruction jobTitle)) (toContent <$> h)
              userResponse);
       fullResponse ←
         for_await_interview (chunks apiResponse) (stream_failure apiResponse) "";
       (if negb (strict_eq userResponse VUndefined)
           && negb (strict_eq userResponse (VStr start_interview)) then
          push history {| role := user; text := userResponse |}
        else mret ());;
       push history {| role := model; text := VStr fullResponse |};;
       map_set sessionId history;;
       h ← read history;
       mret {| status := 200; body := ChatBody fullResponse h |})
      (λ error,
         emit (ConsoleError error);;
         mret {| status := 500; body := ErrorBody failure_message |}).

(** The request passes the guard at the top of the handler. *)
Definition validated (req : Request) : bool :=
  truthy (sessionId req) && truthy (jobTitle req)
  && negb (strict_eq (userResponse req) VUndefined).

(** The message of the call: [userResponse || "start interview"] on the
    first turn of a session, [userResponse] afterwards. *)
Definition message_sent (st : State) (req : Request) : JsVal :=
  if (length (stored_history st (sessionId req)) =? 0)%nat then
    if truthy (userResponse req) then userResponse req else VStr start_interview
  else userResponse req.

(** The reply accumulated from a stream by the loop of [/interview]. *)
Definition accumulated (s : Stream) : Outcome string :=
  result_of (for_await_interview (chunks s) (stream_failure s) "" init).

(** Requests served one after the other. *)
Fixpoint serve (rs : list (Gemini * Request)) (st : State) : State :=
  match rs with
  | [] => st
  | (gemini, req) :: rest => serve rest (state_after (interview gemini req st))
  end.

End Interview.

(** ** Ownership of the stored arrays *)

(** Every reference held by [chatHistories] is a live array, and no two
    sessions hold the same array. *)
Definition well_formed (st : State) : Prop :=
  (∀ sid l, chatHistories st !! sid = Some l → is_Some (heap st !! l)) ∧
  (∀ sid sid' l, chatHistories st !! sid = Some l →
                 chatHistories st !! sid' = Some l → sid = sid').

(** The array at [l] is live and no session other than [sid] holds it. *)
Definition owned (sid : JsVal) (l : loc) (st : State) : Prop :=
  is_Some (heap st !! l) ∧ ∀ s, chatHistories st !! s = Some l → s = sid.

(** The stores reached by pushing onto the array at [l] and by binding
    [sid] to it. *)
Inductive touches (sid : JsVal) (l : loc) : State → State → Prop :=
  | touches_nothing st : touches sid l st st
  | touches_push st st' t :
      touches sid l st st' → touches sid l st (pushed l t st')
  | touches_bind st st' :
      touches sid l st st' → touches sid l st (bound sid l st').

(** The fragments whose [text()] returns without a string, each as the
    warning the loop of [/chat] logs for it. *)
Definition warnings (cs : list Chunk) : list Event :=
  omap (λ c, match chunk_text c with
             | TextFunction (Returns v) =>
                 if String.eqb (js_typeof v) "string" then None
                 else Some (ConsoleWarn (js_typeof v) v)
             | _ => None
             end) cs.

(** [text()] of the fragment returns. *)
Definition text_returns (c : Chunk) : Prop :=
  ∃ v, chunk_text c = TextFunction (Returns v).

(** ** More concrete requests *)

Definition s2 : JsVal := VStr "s2".

Definition hello_request : Request :=
  {| sessionId := s2; userResponse := VStr "Hello" |}.

(** A fragment whose [text()] throws. *)
Definition blocked_fragment (e : Error) : Chunk :=
  {| chunk_text := TextFunction (Throws e); candidates := None |}.

Definition nurse_request (u : JsVal) : Interview.Request :=
  {| Interview.sessionId := s1; Interview.jobTitle := VStr "Nurse";
     Interview.userResponse := u |}.

(** An interviewer that answers every call with the given fragments. *)
Definition interviewer (ss : list string) : Interview.Gemini := λ _, answers ss.

(** An interviewer that rejects every call. *)
Definition absent_interviewer : Interview.Gemini := λ _, rejects unavailable.

(** ** Numbers that print as their digits *)

(** [Number.isSafeInteger(n)]: magnitude at most 2^53 - 1. *)
Definition safe_integer (n : Z) : bool := (Z.abs n <=? 9007199254740991)%Z.

(** The values on which [to_string] is JavaScript's [String]. *)
Definition printable (v : JsVal) : bool :=
  match v with
  | VNum n => safe_integer n
  | _ => true
  end.

(** Every value [/interview] may convert from this fragment is printable. *)
Definition printable_fragment (c : Chunk) : bool :=
  match chunk_text c with
  | TextFunction (Returns v) => printable v
  | TextFunction (Throws _) => true
  | TextValue v => printable v
  end &&
  match nested_text c with
  | Some t => printable t
  | None => true
  end.

Definition clerk_request (u : JsVal) : Interview.Request :=
  {| Interview.sessionId := s2; Interview.jobTitle := VStr "Clerk";
     Interview.userResponse := u |}.

(** * Properties *)

(** ** Strings *)

Lemma append_cons (x : Ascii.ascii) (s t : string) :
  String x s +:+ t = String x (s +:+ t).
Proof. reflexivity. Qed.

Lemma append_nil_r (s : string) : s +:+ "" = s.
Proof. induction s as [|a s IH]; [done | by rewrite append_cons, IH]. Qed.

Lemma append_assoc (a b c : string) : (a +:+ b) +:+ c = a +:+ (b +:+ c).
Proof. induction a as [|x a IH]; [done | by rewrite !append_cons, IH]. Qed.

Lemma concat_cons (x : string) (xs : list string) :
  String.concat "" (x :: xs) = x +:+ String.concat "" xs.
Proof. destruct xs; [| done]. unfold String.concat. by rewrite append_nil_r. Qed.

(** ** The monad and the store *)

Ltac munfold :=
  unfold sendMessageStream, chat_catch, try_catch, state_after, events_of,
    result_of in *;
  unfold mbind, M_bind, mret, M_ret, throw, emit, read, push, map_set in *.

Lemma get_or_new_spec (sid : JsVal) (st : State) :
  ∃ l st1, get_or_new sid st = (Normal l, st1, []) ∧
           deref st1 l = stored_history st sid ∧
           chatHistories st1 = chatHistories st.
Proof.
  unfold get_or_new, stored_history, new_array.
  destruct (chatHistories st !! sid) as [l|] eqn:E.
  - by exists l, st.
  - eexists _, _. split; [done|]. split; [|done].
    unfold deref; cbn. by rewrite lookup_insert_eq.
Qed.

Lemma deref_pushed (st : State) (l : loc) (t : Turn) :
  deref (pushed l t st) l = deref st l ++ [t].
Proof. unfold pushed, deref at 1; cbn. by rewrite lookup_insert_eq. Qed.

Lemma deref_bound (st : State) (sid : JsVal) (l' l : loc) :
  deref (bound sid l' st) l = deref st l.
Proof. reflexivity. Qed.

Lemma stored_history_bound (st : State) (sid : JsVal) (l : loc) :
  stored_history (bound sid l st) sid = deref st l.
Proof. unfold stored_history, bound; cbn. by rewrite lookup_insert_eq. Qed.

(** A push on the array of a known session is a push on its stored history. *)
Lemma stored_history_pushed (st : State) (sid : JsVal) (l : loc) (t : Turn) :
  chatHistories st !! sid = Some l →
  stored_history (pushed l t st) sid = stored_history st sid ++ [t].
Proof.
  intros E. unfold stored_history. cbn. rewrite E. apply deref_pushed.
Qed.

(** ** The fragment loop of [/chat] *)

(** The loop reads and writes no history. *)
Lemma for_await_chat_state (cs : list Chunk) (failure : option Error)
    (acc : string) (st : State) :
  state_after (for_await_chat cs failure acc st) = st.
Proof.
  revert acc. induction cs as [|c cs IH]; intros acc; cbn.
  - by destruct failure.
  - unfold call_text. munfold.
    destruct (chunk_text c) as [[v|e]|v]; cbn; [|done|done].
    destruct (String.eqb (js_typeof v) "string").
    + specialize (IH (acc +:+ to_string v)). munfold.
      by destruct (for_await_chat cs failure _ st) as [[r st'] ev].
    + cbn. specialize (IH acc). munfold.
      by destruct (for_await_chat cs failure _ st) as [[r st'] ev].
Qed.

(** When the loop completes, the stream has ended without failure and the
    accumulator has grown by the text of every fragment, in order. *)
Lemma for_await_chat_normal (cs : list Chunk) (failure : option Error)
    (acc s : string) (st st' : State) (ev : list Event) :
  for_await_chat cs failure acc st = (Normal s, st', ev) →
  failure = None ∧ s = acc +:+ String.concat "" (extracted_text <$> cs).
Proof.
  revert acc ev. induction cs as [|c cs IH]; intros acc ev.
  - cbn. destruct failure; munfold; [done|]. intros [= <- _ _].
    by rewrite append_nil_r.
  - rewrite fmap_cons, concat_cons. cbn [for_await_chat].
    unfold call_text, extracted_text. munfold.
    destruct (chunk_text c) as [[v|e]|v]; cbn; [|done|done].
    destruct (String.eqb (js_typeof v) "string").
    + destruct (for_await_chat cs failure _ st) as [[r st1] ev1] eqn:E.
      intros [= -> -> _]. apply IH in E as [-> ->].
      by rewrite append_assoc.
    + cbn. destruct (for_await_chat cs failure _ st) as [[r st1] ev1] eqn:E.
      intros [= -> -> _]. by apply IH in E as [-> ->].
Qed.

(** The loop makes no external call. *)
Lemma for_await_chat_calls (cs : list Chunk) (failure : option Error)
    (acc : string) (st : State) :
  external_calls (events_of (for_await_chat cs failure acc st)) = [].
Proof.
  revert acc. induction cs as [|c cs IH]; intros acc; cbn.
  - by destruct failure.
  - unfold call_text. munfold.
    destruct (chunk_text c) as [[v|e]|v]; cbn; [|done|done].
    destruct (String.eqb (js_typeof v) "string").
    + specialize (IH (acc +:+ to_string v)). munfold.
      by destruct (for_await_chat cs failure _ st) as [[r st'] ev].
    + cbn. specialize (IH acc). munfold.
      by destruct (for_await_chat cs failure _ st) as [[r st'] ev].
Qed.

(** ** The shape of a validated request *)

Lemma chat_invalid (gemini : Gemini) (req : Request) (st : State) :
  validated req = false →
  chat gemini req st = (Normal {| status := 400; body := ErrorBody missing_message |}, st, []).
Proof.
  unfold validated, chat. intros H.
  destruct (truthy (sessionId req)); cbn in *; [|done].
  apply negb_false_iff in H. by rewrite H.
Qed.

(** What the handler does with a validated request, by cases on the branch
    taken and on what the service does. *)
Lemma chat_validated (gemini : Gemini) (req : Request) (st : State) :
  validated req = true →
  ∃ l st1,
    get_or_new (sessionId req) st = (Normal l, st1, []) ∧
    let stored := stored_history st (sessionId req) in
    let first := initial_contact st req in
    let st2 := if first then st1 else pushed l (user_turn req) st1 in
    let h := if first then [] else toContent <$> (stored ++ [user_turn req]) in
    let m := if first then VStr start_conversation else userResponse req in
    chat gemini req st =
    match gemini h m with
    | Rejected e =>
        (Normal (error_response e), st2, [SendMessageStream h m; ConsoleError e])
    | Streaming s =>
        match for_await_chat (chunks s) (stream_failure s) "" st2 with
        | (Normal reply, _, ev) =>
            let st3 := if first then pushed l opening_turn st2 else st2 in
            let st4 := pushed l (model_turn reply) st3 in
            (Normal {| status := 200;
                       body := ChatBody reply
                         (stored ++ [if first then opening_turn else user_turn req]
                                 ++ [model_turn reply]) |},
             bound (sessionId req) l st4,
             SendMessageStream h m :: ev)
        | (Thrown e, _, ev) =>
            (Normal (error_response e), st2,
             SendMessageStream h m :: ev ++ [ConsoleError e])
        end
    end.
Proof.
  unfold validated. intros [Hs Hu]%andb_prop. apply negb_true_iff in Hu.
  destruct (get_or_new_spec (sessionId req) st) as (l & st1 & Hget & Hd & Hm).
  exists l, st1. split; [done|]. cbn zeta.
  unfold chat, initial_contact. rewrite Hs, Hu. cbn [negb orb].
  unfold mbind at 1, M_bind at 1. rewrite Hget. rewrite <- Hd.
  munfold. cbn.
  destruct ((length (deref st1 l) =? 0)%nat && strict_eq (userResponse req) (VStr "")) eqn:Hf.
  - cbn. destruct (gemini [] (VStr start_conversation)) as [e|s]; cbn; [reflexivity|].
    pose proof (for_await_chat_state (chunks s) (stream_failure s) "" st1) as Hst.
    destruct (for_await_chat _ _ _ st1) as [[[reply|e] st'] ev]; cbn in Hst;
      subst st'; [|reflexivity].
    rewrite Hf. cbn. rewrite deref_bound, !deref_pushed, <- app_assoc, app_nil_r.
    reflexivity.
  - cbn. rewrite deref_pushed.
    destruct (gemini _ (userResponse req)) as [e|s]; cbn; [reflexivity|].
    fold (user_turn req). set (st2 := pushed l (user_turn req) st1).
    pose proof (for_await_chat_state (chunks s) (stream_failure s) "" st2) as Hst.
    destruct (for_await_chat _ _ _ st2) as [[[reply|e] st'] ev]; cbn in Hst;
      subst st'; [|reflexivity].
    assert (deref st2 l = deref st1 l ++ [user_turn req]) as Hd2
      by apply deref_pushed.
    rewrite Hd2, length_app. cbn [length].
    replace (length (deref st1 l) + 1 =? 0)%nat with false
      by (symmetry; apply Nat.eqb_neq; lia).
    cbn. rewrite deref_bound, deref_pushed, Hd2, <- app_assoc, app_nil_r.
    reflexivity.
Qed.

(** ** What a request is seen to do *)

Lemma external_calls_send (h : list Content) (m : JsVal) (ev : list Event) :
  external_calls (SendMessageStream h m :: ev) = (h, m) :: external_calls ev.
Proof. reflexivity. Qed.

Lemma external_calls_app (ev1 ev2 : list Event) :
  external_calls (ev1 ++ ev2) = external_calls ev1 ++ external_calls ev2.
Proof. apply omap_app. Qed.

(** The loop's result and console output do not depend on the store. *)
Lemma for_await_chat_indep (cs : list Chunk) (failure : option Error)
    (acc : string) (st st0 : State) :
  for_await_chat cs failure acc st =
  (result_of (for_await_chat cs failure acc st0), st,
   events_of (for_await_chat cs failure acc st0)).
Proof.
  revert acc. induction cs as [|c cs IH]; intros acc; cbn.
  - by destruct failure.
  - unfold call_text. munfold.
    destruct (chunk_text c) as [[v|e]|v]; cbn; [|done|done].
    destruct (String.eqb (js_typeof v) "string"); cbn.
    + rewrite (IH (acc +:+ to_string v)).
      by destruct (for_await_chat cs failure _ st0) as [[r st'] ev].
    + rewrite (IH acc).
      by destruct (for_await_chat cs failure _ st0) as [[r st'] ev].
Qed.

Lemma chat_observed (gemini : Gemini) (req : Request) (st : State) :
  validated req = true →
  let r := chat gemini req st in
  let '(h, m) := outgoing st req in
  external_calls (events_of r) = [(h, m)] ∧
  match gemini h m with
  | Rejected e =>
      result_of r = Normal (error_response e) ∧
      stored_history (state_after r) (sessionId req) = left_behind st req
  | Streaming s =>
      match accumulated s with
      | Normal reply =>
          result_of r =
            Normal {| status := 200;
                      body := ChatBody reply (committed st req reply) |} ∧
          stored_history (state_after r) (sessionId req) = committed st req reply
      | Thrown e =>
          result_of r = Normal (error_response e) ∧
          stored_history (state_after r) (sessionId req) = left_behind st req
      end
  end.
Proof.
  intros Hv. destruct (chat_validated gemini req st Hv) as (l & st1 & Hget & Hchat).
  cbn zeta in Hchat. cbn zeta. unfold outgoing, committed, left_behind, accumulated.
  assert (stored_history
            (if initial_contact st req then st1 else pushed l (user_turn req) st1)
            (sessionId req) = left_behind st req) as Hleft.
  { unfold left_behind, get_or_new, new_array in *.
    destruct (chatHistories st !! sessionId req) as [l'|] eqn:E.
    - injection Hget as <- <-.
      destruct (initial_contact st req); [done|]. by apply stored_history_pushed.
    - injection Hget as <- <-. unfold stored_history at 1.
      destruct (initial_contact st req); cbn; rewrite E; [|done].
      unfold stored_history. by rewrite E. }
  unfold left_behind in Hleft.
  destruct (initial_contact st req) eqn:Hf.
  - destruct (gemini [] (VStr start_conversation)) as [e|s].
    + rewrite Hchat. by cbn.
    + rewrite (for_await_chat_indep _ _ _ st1 init) in Hchat.
      pose proof (for_await_chat_calls (chunks s) (stream_failure s) "" init) as Hc.
      destruct (for_await_chat _ _ _ init) as [[[reply|e] st'] ev];
        rewrite Hchat; unfold events_of, result_of, state_after in *;
        cbn [fst snd] in *;
        rewrite external_calls_send, ?external_calls_app, Hc.
      * split; [done|]. split; [done|].
        rewrite stored_history_bound, !deref_pushed.
        destruct (get_or_new_spec (sessionId req) st) as (l2 & st2 & Hg2 & Hd2 & _).
        rewrite Hget in Hg2. injection Hg2 as <- <-. rewrite Hd2.
        by rewrite <- app_assoc.
      * split; [done|]. split; [done|]. apply Hleft.
  - destruct (gemini _ (userResponse req)) as [e|s].
    + rewrite Hchat. by cbn.
    + rewrite (for_await_chat_indep _ _ _ _ init) in Hchat.
      pose proof (for_await_chat_calls (chunks s) (stream_failure s) "" init) as Hc.
      destruct (for_await_chat _ _ _ init) as [[[reply|e] st'] ev];
        rewrite Hchat; unfold events_of, result_of, state_after in *;
        cbn [fst snd] in *;
        rewrite external_calls_send, ?external_calls_app, Hc.
      * split; [done|]. split; [done|].
        rewrite stored_history_bound, !deref_pushed.
        destruct (get_or_new_spec (sessionId req) st) as (l2 & st2 & Hg2 & Hd2 & _).
        rewrite Hget in Hg2. injection Hg2 as <- <-. rewrite Hd2.
        by rewrite <- app_assoc.
      * split; [done|]. split; [done|]. apply Hleft.
Qed.

Lemma initial_contact_true (st : State) (req : Request) :
  stored_history st (sessionId req) = [] →
  userResponse req = VStr "" →
  initial_contact st req = true.
Proof. unfold initial_contact. by intros -> ->. Qed.

Lemma initial_contact_false (st : State) (req : Request) :
  stored_history st (sessionId req) ≠ [] →
  initial_contact st req = false.
Proof.
  unfold initial_contact. intros H.
  destruct (stored_history st (sessionId req)); [done|]. reflexivity.
Qed.

Lemma validated_string (req : Request) (u : string) :
  truthy (sessionId req) = true →
  userResponse req = VStr u →
  validated req = true.
Proof. unfold validated. by intros -> ->. Qed.

(** Every request is answered, with status 400, 500 or 200, and 400 is the
    answer to exactly the requests that fail the guard. *)
Lemma chat_answers (gemini : Gemini) (req : Request) (st : State) :
  ∃ resp, result_of (chat gemini req st) = Normal resp ∧
          (validated req = false ∧ status resp = 400 ∨
           validated req = true ∧ (status resp = 500 ∨ status resp = 200)).
Proof.
  destruct (validated req) eqn:Hv.
  - pose proof (chat_observed gemini req st Hv) as H. cbn zeta in H.
    destruct (outgoing st req) as [h m]. destruct H as [_ H].
    destruct (gemini h m) as [e|s]; [|destruct (accumulated s)];
      destruct H as [-> _]; eexists; (split; [done|]); right; cbn; auto.
  - rewrite (chat_invalid _ _ _ Hv). eexists; split; [done|]. by left.
Qed.

(** A turn that fails leaves in the store what the handler had pushed before
    the failure. *)
Lemma failed_turn_history (gemini : Gemini) (req : Request) (st : State)
    (h : list Content) (m : JsVal) (e : Error) :
  validated req = true →
  outgoing st req = (h, m) →
  service_failure gemini h m = Some e →
  stored_history (state_after (chat gemini req st)) (sessionId req) =
  left_behind st req.
Proof.
  intros Hv Ho Hf. pose proof (chat_observed gemini req st Hv) as H.
  cbn zeta in H. rewrite Ho in H. destruct H as [_ H].
  unfold service_failure in Hf.
  destruct (gemini h m) as [e'|s]; [by destruct H|].
  destruct (accumulated s); [done | by destruct H].
Qed.

(** ** Alternation of roles *)

Lemma alternates_app_pair (h : list Turn) (a b : Turn) (n : nat) :
  length h = 2 * n → alternates user h = true →
  role a = user → role b = model →
  alternates user (h ++ [a; b]) = true.
Proof.
  revert h. induction n as [|n IH]; intros h Hlen Halt Ha Hb.
  - destruct h; [|done]. cbn. by rewrite Ha, Hb.
  - destruct h as [|x [|y h]]; cbn in Hlen; [lia | lia |].
    cbn in Halt. apply andb_prop in Halt as [Hx [Hy Halt]%andb_prop].
    cbn. rewrite Hx, Hy. cbn. apply IH; [lia | done..].
Qed.

(** A turn answered 200 appends a [user] turn and a [model] turn. *)
Lemma successful_turn_appends (gemini : Gemini) (req : Request) (st : State)
    (resp : Response) :
  result_of (chat gemini req st) = Normal resp →
  status resp = 200 →
  ∃ a b, role a = user ∧ role b = model ∧
    stored_history (state_after (chat gemini req st)) (sessionId req) =
    stored_history st (sessionId req) ++ [a; b].
Proof.
  intros Hr Hs. destruct (validated req) eqn:Hv.
  - pose proof (chat_observed gemini req st Hv) as H. cbn zeta in H.
    destruct (outgoing st req) as [h m]. destruct H as [_ H].
    destruct (gemini h m) as [e|s]; [|destruct (accumulated s) as [reply|e]];
      destruct H as [H1 H2]; rewrite H1 in Hr; injection Hr as <-; try done.
    rewrite H2. unfold committed. eexists _, _. split; [|split; [|done]]; [|done].
    by destruct (initial_contact st req).
  - rewrite (chat_invalid _ _ _ Hv) in Hr. injection Hr as <-. done.
Qed.

(** While every turn of a session succeeds, its history has two entries per
    turn and alternates from [user]. *)
Lemma successful_turns_alternate (sid : JsVal) (n : nat) (st st' : State) :
  successful_turns sid n st st' →
  stored_history st sid = [] →
  length (stored_history st' sid) = 2 * n ∧
  alternates user (stored_history st' sid) = true.
Proof.
  induction 1 as [st|n st st' gemini req resp _ IH Hsid Hr Hs]; intros H0.
  - by rewrite H0.
  - destruct (IH H0) as [Hlen Halt].
    destruct (successful_turn_appends _ _ _ _ Hr Hs) as (a & b & Ha & Hb & Heq).
    rewrite Hsid in Heq. rewrite Heq. split.
    + rewrite length_app. cbn. lia.
    + by eapply alternates_app_pair.
Qed.

(** * The properties of the specification *)

(** C1.  The claim: a failed external call leaves the stored history of the
    session exactly as it was.  On the code it does not: for a known session
    the user turn is pushed onto the stored array itself before the call, and
    a failure leaves it there.  Here session [s1] holds the opening exchange;
    the call for "Yes, go ahead" is rejected, or its stream breaks after a
    first fragment; the answer is 500, and the stored history has grown by
    the user turn. *)
Theorem failed_turn_keeps_user_turn :
  let r := chat (rejects unavailable) yes_request after_opening in
  let r' := chat (breaks_after ["Which "] unavailable) yes_request after_opening in
  stored_history after_opening s1 =
    [opening_turn; model_turn "Hi, I'm Tina."] ∧
  result_of r = Normal {| status := 500; body := ErrorBody retry_message |} ∧
  stored_history (state_after r) s1 =
    [opening_turn; model_turn "Hi, I'm Tina.";
     {| role := user; text := VStr "Yes, go ahead" |}] ∧
  result_of r' = result_of r ∧
  stored_history (state_after r') s1 = stored_history (state_after r) s1.
Proof. vm_compute. done. Qed.

(** C2.  The claim: after N successful turns a session stores exactly 2N
    entries, alternating from [user].  On the code a failed turn in between
    breaks it: after one successful turn and one rejected call the history of
    [s1] has three entries, and a further successful turn gives five, with
    two [user] entries in a row. *)
Theorem failed_turn_breaks_alternation :
  let st1 := serve [(answers ["Hi, "; "I'm Tina."], open_request);
                    (rejects unavailable, yes_request)] init in
  let st2 := serve [(answers ["Which vehicle?"], yes_request)] st1 in
  role <$> stored_history st1 s1 = [user; model; user] ∧
  role <$> stored_history st2 s1 = [user; model; user; user; model] ∧
  alternates user (stored_history st2 s1) = false.
Proof. vm_compute. done. Qed.

(** C3.  First contact: with nothing stored for the session and an empty
    [userResponse], the service is called exactly once, whatever it then
    does, with an empty history and the fixed opening utterance as message;
    and when the reply is accumulated the answer is 200 and the session
    stores exactly the opening [user] turn followed by the [model] reply. *)
Theorem first_contact_opens_conversation (gemini : Gemini) (req : Request)
    (st : State) :
  truthy (sessionId req) = true →
  stored_history st (sessionId req) = [] →
  userResponse req = VStr "" →
  let r := chat gemini req st in
  external_calls (events_of r) = [([], VStr "Start conversation with Tina.")] ∧
  ∀ s reply,
    gemini [] (VStr "Start conversation with Tina.") = Streaming s →
    accumulated s = Normal reply →
    (∃ history, result_of r =
       Normal {| status := 200; body := ChatBody reply history |}) ∧
    stored_history (state_after r) (sessionId req) =
      [ {| role := user; text := VStr "Start conversation with Tina." |};
        {| role := model; text := VStr reply |} ] ∧
    length (stored_history (state_after r) (sessionId req)) = 2 ∧
    role <$> head (stored_history (state_after r) (sessionId req)) = Some user.
Proof.
  intros Hs H0 Hu r.
  pose proof (chat_observed gemini req st (validated_string _ _ Hs Hu)) as H.
  cbn zeta in H. unfold outgoing, committed in H.
  rewrite (initial_contact_true _ _ H0 Hu), H0 in H.
  destruct H as [Hc H]. split; [done|]. intros s reply Hg Ha.
  change (VStr "Start conversation with Tina.") with (VStr start_conversation) in Hg.
  rewrite Hg, Ha in H. destruct H as [Hr Hh]. subst r. rewrite Hr, Hh. eauto 6.
Qed.

Lemma first_contact_opens_conversation_witness :
  let r := chat (answers ["Hi, "; "I'm Tina."]) open_request init in
  external_calls (events_of r) = [([], VStr "Start conversation with Tina.")] ∧
  (∃ history, result_of r =
     Normal {| status := 200; body := ChatBody "Hi, I'm Tina." history |}) ∧
  stored_history (state_after r) s1 =
    [ {| role := user; text := VStr "Start conversation with Tina." |};
      {| role := model; text := VStr "Hi, I'm Tina." |} ] ∧
  length (stored_history (state_after r) s1) = 2 ∧
  role <$> head (stored_history (state_after r) s1) = Some user.
Proof.
  destruct (first_contact_opens_conversation (answers ["Hi, "; "I'm Tina."])
              open_request init eq_refl eq_refl eq_refl) as [Hcall Hdone].
  split; [exact Hcall|].
  exact (Hdone {| chunks := fragment <$> ["Hi, "; "I'm Tina."];
                  stream_failure := None |}
           "Hi, I'm Tina." eq_refl eq_refl).
Defined.

(** C4.  Mid-conversation: with a non-empty stored history and a non-empty
    [userResponse], the one call made carries as history the stored history
    followed by the new [user] turn, entry by entry in the same order, each
    converted to [{ role, parts: [{ text }] }] with its role and text. *)
Theorem ongoing_call_sends_history_and_turn (gemini : Gemini) (req : Request)
    (st : State) (u : string) :
  truthy (sessionId req) = true →
  stored_history st (sessionId req) ≠ [] →
  userResponse req = VStr u →
  u ≠ "" →
  ∃ history,
    external_calls (events_of (chat gemini req st)) = [(history, VStr u)] ∧
    Forall2 (λ t c, c = {| content_role := role t;
                           parts := [ {| part_text := text t |} ] |})
      (stored_history st (sessionId req) ++ [ {| role := user; text := VStr u |} ])
      history.
Proof.
  intros Hs Hne Hu _.
  pose proof (chat_observed gemini req st (validated_string _ _ Hs Hu)) as H.
  cbn zeta in H. unfold outgoing in H.
  rewrite (initial_contact_false _ _ Hne) in H. destruct H as [Hc _].
  eexists. split; [by rewrite Hc, Hu|].
  unfold user_turn. rewrite Hu. apply Forall2_fmap_r, Forall_Forall2_diag.
  by apply Forall_forall.
Qed.

Lemma ongoing_call_sends_history_and_turn_witness :
  ∃ history,
    external_calls (events_of (chat (answers ["Which vehicle?"]) yes_request
                                 after_opening)) =
      [(history, VStr "Yes, go ahead")] ∧
    Forall2 (λ t c, c = {| content_role := role t;
                           parts := [ {| part_text := text t |} ] |})
      (stored_history after_opening (sessionId yes_request)
         ++ [ {| role := user; text := VStr "Yes, go ahead" |} ])
      history.
Proof.
  apply (ongoing_call_sends_history_and_turn (answers ["Which vehicle?"])
           yes_request after_opening "Yes, go ahead");
    [reflexivity | by vm_compute | reflexivity | done].
Defined.




(** C6.  A 200 answer comes from one external call whose stream ended
    without failure, and its [response] field is the concatenation, in
    order and with nothing in between, of the text taken from each of the
    stream's fragments. *)
Theorem response_is_concatenation (gemini : Gemini) (req : Request) (st : State)
    (resp : Response) :
  result_of (chat gemini req st) = Normal resp →
  status resp = 200 →
  ∃ h m s history,
    external_calls (events_of (chat gemini req st)) = [(h, m)] ∧
    gemini h m = Streaming s ∧
    stream_failure s = None ∧
    body resp =
      ChatBody (String.concat "" (extracted_text <$> chunks s)) history.
Proof.
  intros Hr Hs. destruct (validated req) eqn:Hv.
  - pose proof (chat_observed gemini req st Hv) as H. cbn zeta in H.
    destruct (outgoing st req) as [h m]. destruct H as [Hc H].
    exists h, m. destruct (gemini h m) as [e|s].
    { destruct H as [H _]. rewrite H in Hr. by injection Hr as <-. }
    destruct (accumulated s) as [reply|e] eqn:E; destruct H as [H _];
      rewrite H in Hr; injection Hr as <-; [|done].
    unfold accumulated, result_of in E.
    destruct (for_await_chat _ _ _ init) as [[o st'] ev] eqn:E'.
    cbn in E. subst o. apply for_await_chat_normal in E' as [Hf ->].
    exists s, (committed st req (String.concat "" (extracted_text <$> chunks s))).
    done.
  - rewrite (chat_invalid _ _ _ Hv) in Hr. by injection Hr as <-.
Qed.

Lemma response_is_concatenation_witness :
  ∃ h m s history,
    external_calls (events_of (chat (answers ["Hi, "; "I'm Tina."])
                                 open_request init)) = [(h, m)] ∧
    answers ["Hi, "; "I'm Tina."] h m = Streaming s ∧
    stream_failure s = None ∧
    ChatBody "Hi, I'm Tina." [opening_turn; model_turn "Hi, I'm Tina."] =
      ChatBody (String.concat "" (extracted_text <$> chunks s)) history.
Proof.
  apply (response_is_concatenation (answers ["Hi, "; "I'm Tina."])
           open_request init
           {| status := 200;
              body := ChatBody "Hi, I'm Tina."
                        [opening_turn; model_turn "Hi, I'm Tina."] |});
    reflexivity.
Defined.

(** C7, as stated, fails: the 200 answer to a first contact carries the
    opening utterance in its [history] field. *)
Lemma opening_utterance_is_returned :
  ¬ (∀ (gemini : Gemini) (req : Request) (st : State) (reply : string)
       (history : list Turn),
       initial_contact st req = true →
       result_of (chat gemini req st) =
         Normal {| status := 200; body := ChatBody reply history |} →
       ∀ t, t ∈ history → text t ≠ VStr start_conversation).
Proof.
  intros H.
  apply (H (answers ["Hi, "; "I'm Tina."]) open_request init "Hi, I'm Tina."
           [opening_turn; model_turn "Hi, I'm Tina."] eq_refl eq_refl
           opening_turn); [left | reflexivity].
Qed.

(** C7, amended.  The opening utterance is a fixed constant.  In the 200
    answer to a first contact the [response] field is the accumulated reply
    of the model, and the [history] field is the opening utterance as a
    [user] turn followed by that reply as a [model] turn. *)
Theorem first_contact_answer (gemini : Gemini) (req : Request) (st : State)
    (resp : Response) :
  truthy (sessionId req) = true →
  stored_history st (sessionId req) = [] →
  userResponse req = VStr "" →
  result_of (chat gemini req st) = Normal resp →
  status resp = 200 →
  ∃ s, gemini [] (VStr start_conversation) = Streaming s ∧
    body resp =
      ChatBody (String.concat "" (extracted_text <$> chunks s))
        [ {| role := user; text := VStr "Start conversation with Tina." |};
          {| role := model;
             text := VStr (String.concat "" (extracted_text <$> chunks s)) |} ].
Proof.
  intros Hs H0 Hu Hr H200.
  pose proof (chat_observed gemini req st (validated_string _ _ Hs Hu)) as H.
  cbn zeta in H. unfold outgoing, committed in H.
  rewrite (initial_contact_true _ _ H0 Hu), H0 in H. destruct H as [_ H].
  destruct (gemini [] (VStr start_conversation)) as [e|s].
  { destruct H as [H _]. rewrite H in Hr. by injection Hr as <-. }
  exists s. split; [done|].
  destruct (accumulated s) as [reply|e] eqn:E; destruct H as [H _];
    rewrite H in Hr; injection Hr as <-; [|done].
  unfold accumulated, result_of in E.
  destruct (for_await_chat _ _ _ init) as [[o st'] ev] eqn:E'.
  cbn in E. subst o. by apply for_await_chat_normal in E' as [_ ->].
Qed.

Lemma first_contact_answer_witness :
  ∃ s, answers ["Hi, "; "I'm Tina."] [] (VStr start_conversation) = Streaming s ∧
    ChatBody "Hi, I'm Tina." [opening_turn; model_turn "Hi, I'm Tina."] =
      ChatBody (String.concat "" (extracted_text <$> chunks s))
        [ {| role := user; text := VStr "Start conversation with Tina." |};
          {| role := model;
             text := VStr (String.concat "" (extracted_text <$> chunks s)) |} ].
Proof.
  apply (first_contact_answer (answers ["Hi, "; "I'm Tina."]) open_request init
           {| status := 200;
              body := ChatBody "Hi, I'm Tina."
                        [opening_turn; model_turn "Hi, I'm Tina."] |});
    reflexivity.
Defined.

(** C8, as stated, fails: an empty [sessionId] is present, not missing, and
    is answered 400 all the same. *)
Lemma present_session_id_rejected :
  ¬ (∀ (gemini : Gemini) (req : Request) (st : State) (resp : Response),
       result_of (chat gemini req st) = Normal resp →
       (status resp = 400 ↔
        sessionId req = VUndefined ∨ userResponse req = VUndefined)).
Proof.
  intros H.
  destruct (H (answers []) {| sessionId := VStr ""; userResponse := VStr "hi" |}
              init _ eq_refl) as [H400 _].
  by destruct (H400 eq_refl).
Qed.

(** C8, amended.  Every request is answered, and the answer is 400 exactly
    when [sessionId] is falsy (missing, [null], [false], [0] or the empty
    string) or [userResponse] is [undefined]; an empty [userResponse] is not
    a reason for 400.  A 400 answer has an [error] body, and the request has
    then made no external call, logged nothing and left the store as it
    was. *)
Theorem validation_failure (gemini : Gemini) (req : Request) (st : State) :
  ∃ resp,
    result_of (chat gemini req st) = Normal resp ∧
    (status resp = 400 ↔
     truthy (sessionId req) = false ∨ userResponse req = VUndefined) ∧
    (status resp = 400 →
     body resp = ErrorBody missing_message ∧
     events_of (chat gemini req st) = [] ∧
     state_after (chat gemini req st) = st).
Proof.
  assert (validated req = false ↔
          truthy (sessionId req) = false ∨ userResponse req = VUndefined) as Hv.
  { unfold validated, strict_eq.
    destruct (truthy (sessionId req)); cbn.
    - rewrite negb_false_iff, bool_decide_eq_true.
      split; [by right | by intros [|]].
    - split; [by left | done]. }
  destruct (chat_answers gemini req st) as (resp & Hr & [[Hf Hs]|[Ht Hs]]);
    exists resp; (split; [done|]).
  - split; [by rewrite <- Hv|]. intros _.
    rewrite (chat_invalid _ _ _ Hf) in *. by injection Hr as <-.
  - split; [|lia]. rewrite <- Hv, Ht. split; [lia | done].
Qed.



(** C10.  An empty [sessionId] is answered exactly as a missing one: 400
    with the same body, no external call, the store untouched; whereas an
    empty [userResponse] with a truthy [sessionId] is never answered 400. *)
Theorem empty_session_id_is_rejected (gemini : Gemini) (u : JsVal) (st : State) :
  chat gemini {| sessionId := VStr ""; userResponse := u |} st =
    (Normal {| status := 400; body := ErrorBody missing_message |}, st, []) ∧
  chat gemini {| sessionId := VStr ""; userResponse := u |} st =
    chat gemini {| sessionId := VUndefined; userResponse := u |} st ∧
  ∀ sid, truthy sid = true →
    ∃ resp,
      result_of (chat gemini {| sessionId := sid; userResponse := VStr "" |} st) =
        Normal resp ∧
      status resp ≠ 400.
Proof.
  split; [done|]. split; [done|]. intros sid Hs.
  destruct (chat_answers gemini {| sessionId := sid; userResponse := VStr "" |} st)
    as (resp & Hr & [[Hf _]|[_ Hst]]).
  - unfold validated in Hf. cbn in Hf. by rewrite Hs in Hf.
  - exists resp. split; [done | lia].
Qed.

(** * Further properties of the handlers *)

(** ** Ownership of the stored arrays *)

Lemma well_formed_init : well_formed init.
Proof. split; intros *; cbn; by rewrite lookup_empty. Qed.

(** A fresh array changes no stored history. *)
Lemma get_or_new_owned (sid : JsVal) (st st1 : State) (l : loc) :
  well_formed st →
  get_or_new sid st = (Normal l, st1, []) →
  well_formed st1 ∧ owned sid l st1 ∧
  (∀ s, stored_history st1 s = stored_history st s).
Proof.
  intros [Hlive Hinj]. unfold get_or_new, new_array.
  destruct (chatHistories st !! sid) as [l'|] eqn:E; intros [= <- <-].
  - split; [done|]. split; [|done]. split; [by eapply Hlive|].
    intros s Hs. by eapply Hinj.
  - set (l := fresh (dom (heap st))).
    assert (heap st !! l = None) as Hl
      by (apply not_elem_of_dom; apply is_fresh).
    assert (∀ s, chatHistories st !! s ≠ Some l) as Hno.
    { intros s Hs. apply Hlive in Hs as [x Hx]. congruence. }
    split; [|split].
    + split; cbn; [|done]. intros s l' Hs.
      rewrite lookup_insert_is_Some. right. split; [|by eapply Hlive].
      intros <-. by eapply Hno.
    + split; cbn; [by rewrite lookup_insert_eq | intros s Hs; by destruct (Hno s)].
    + intros s. unfold stored_history, deref; cbn.
      destruct (chatHistories st !! s) as [l'|] eqn:Es; [|done].
      rewrite lookup_insert_ne; [done|]. intros <-. by eapply Hno.
Qed.

Lemma touches_keeps (sid : JsVal) (l : loc) (st st' : State) :
  touches sid l st st' →
  well_formed st → owned sid l st →
  well_formed st' ∧ owned sid l st' ∧
  (∀ s, s ≠ sid → stored_history st' s = stored_history st s).
Proof.
  induction 1 as [st|st st' t _ IH|st st' _ IH]; intros Hwf Hown; [done|..];
    destruct (IH Hwf Hown) as ([Hlive Hinj] & [Hl Hmine] & Hframe).
  - split; [|split].
    + split; cbn; [|done]. intros s l' Hs.
      rewrite lookup_insert_is_Some'. right. by eapply Hlive.
    + split; cbn; [|done]. rewrite lookup_insert_is_Some'. by left.
    + intros s Hs. rewrite <- (Hframe s Hs). unfold stored_history, deref; cbn.
      destruct (chatHistories st' !! s) as [l'|] eqn:Es; [|done].
      rewrite lookup_insert_ne; [done|]. intros <-. by apply Hs, Hmine.
  - split; [|split].
    + split; cbn.
      * intros s l' Hs. apply lookup_insert_Some in Hs as [[_ <-]|[_ Hs]];
          [done | by eapply Hlive].
      * intros s s' l' Hs Hs'.
        apply lookup_insert_Some in Hs as [[E1 E2]|[Hne Hs]];
          apply lookup_insert_Some in Hs' as [[E1' E2']|[Hne' Hs']];
          simplify_eq; [done | | | by eapply Hinj].
        -- by apply Hmine in Hs'.
        -- by apply Hmine in Hs.
    + split; cbn; [done|]. intros s Hs.
      apply lookup_insert_Some in Hs as [[<- _]|[_ Hs]]; [done | by apply Hmine].
    + intros s Hs. rewrite <- (Hframe s Hs). unfold stored_history, deref; cbn.
      by rewrite lookup_insert_ne.
Qed.

(** A validated [/chat] request only pushes onto the array of its session
    and binds the session to it. *)
Lemma chat_touches (gemini : Gemini) (req : Request) (st : State) :
  validated req = true →
  ∃ l st1, get_or_new (sessionId req) st = (Normal l, st1, []) ∧
           touches (sessionId req) l st1 (state_after (chat gemini req st)).
Proof.
  intros Hv. destruct (chat_validated gemini req st Hv) as (l & st1 & Hget & Hchat).
  exists l, st1. split; [done|]. cbn zeta in Hchat. rewrite Hchat. clear Hchat.
  assert (touches (sessionId req) l st1
            (if initial_contact st req then st1 else pushed l (user_turn req) st1))
    as H2 by (destruct (initial_contact st req); repeat constructor).
  destruct (gemini _ _) as [e|s]; [done|].
  destruct (for_await_chat _ _ _ _) as [[[reply|e] st'] ev]; [|done].
  unfold state_after; cbn [fst snd].
  apply touches_bind, touches_push.
  destruct (initial_contact st req); [by apply touches_push | done].
Qed.

Lemma chat_keeps (gemini : Gemini) (req : Request) (st : State) :
  well_formed st →
  well_formed (state_after (chat gemini req st)) ∧
  (∀ s, s ≠ sessionId req →
        stored_history (state_after (chat gemini req st)) s = stored_history st s).
Proof.
  intros Hwf. destruct (validated req) eqn:Hv.
  - destruct (chat_touches gemini req st Hv) as (l & st1 & Hget & Ht).
    destruct (get_or_new_owned _ _ _ _ Hwf Hget) as (Hwf1 & Hown & Hsame).
    destruct (touches_keeps _ _ _ _ Ht Hwf1 Hown) as (Hwf' & _ & Hframe).
    split; [done|]. intros s Hs. by rewrite Hframe, Hsame.
  - by rewrite (chat_invalid _ _ _ Hv).
Qed.

Lemma serve_well_formed (rs : list (Gemini * Request)) (st : State) :
  well_formed st → well_formed (serve rs st).
Proof.
  revert st. induction rs as [|[gemini req] rs IH]; intros st Hwf; [done|].
  cbn. by apply IH, chat_keeps.
Qed.

(** Fetching the array of a session, new or not, changes no stored history. *)
Lemma get_or_new_same (sid : JsVal) (st st1 : State) (l : loc) :
  get_or_new sid st = (Normal l, st1, []) →
  ∀ s, stored_history st1 s = stored_history st s.
Proof.
  unfold get_or_new, new_array.
  destruct (chatHistories st !! sid) as [l'|]; intros [= <- <-] s; [done|].
  assert (heap st !! fresh (dom (heap st)) = None) as Hl
    by (apply not_elem_of_dom; apply is_fresh).
  unfold stored_history, deref; cbn.
  destruct (chatHistories st !! s) as [l'|]; [|done].
  destruct (decide (fresh (dom (heap st)) = l')) as [<-|Hne].
  - by rewrite lookup_insert_eq, Hl.
  - by rewrite lookup_insert_ne.
Qed.

(** ** The fragment loop of [/interview] *)

Lemma for_await_interview_indep (cs : list Chunk) (failure : option Error)
    (acc : string) (st st0 : State) :
  for_await_interview cs failure acc st =
  (result_of (for_await_interview cs failure acc st0), st,
   events_of (for_await_interview cs failure acc st0)).
Proof.
  revert acc. induction cs as [|c cs IH]; intros acc; cbn.
  - by destruct failure.
  - munfold. destruct (chunk_text c) as [[v|e]|v]; [apply IH | done |].
    destruct (String.eqb (js_typeof v) "string"); [apply IH|]. cbn.
    destruct (nested_text c) as [t|].
    + rewrite (IH (acc +:+ to_string t)).
      by destruct (for_await_interview cs failure _ st0) as [[r st'] ev].
    + rewrite (IH acc).
      by destruct (for_await_interview cs failure _ st0) as [[r st'] ev].
Qed.

Lemma for_await_interview_calls (cs : list Chunk) (failure : option Error)
    (acc : string) (st : State) :
  external_calls (events_of (for_await_interview cs failure acc st)) = [].
Proof.
  revert acc. induction cs as [|c cs IH]; intros acc; cbn.
  - by destruct failure.
  - munfold. destruct (chunk_text c) as [[v|e]|v]; [apply IH | done |].
    destruct (String.eqb (js_typeof v) "string"); [apply IH|]. cbn.
    destruct (nested_text c) as [t|].
    + specialize (IH (acc +:+ to_string t)).
      by destruct (for_await_interview cs failure _ st) as [[r st'] ev].
    + specialize (IH acc).
      by destruct (for_await_interview cs failure _ st) as [[r st'] ev].
Qed.

Lemma for_await_interview_normal (cs : list Chunk) (failure : option Error)
    (acc s : string) (st st' : State) (ev : list Event) :
  for_await_interview cs failure acc st = (Normal s, st', ev) →
  failure = None ∧ s = acc +:+ String.concat "" (interview_text <$> cs).
Proof.
  revert acc ev. induction cs as [|c cs IH]; intros acc ev.
  - cbn. destruct failure; munfold; [done|]. intros [= <- _ _].
    by rewrite append_nil_r.
  - rewrite fmap_cons, concat_cons. cbn [for_await_interview].
    unfold interview_text. munfold.
    destruct (chunk_text c) as [[v|e]|v]; [| done |].
    + intros [-> ->]%IH. by rewrite append_assoc.
    + destruct (String.eqb (js_typeof v) "string").
      { intros [-> ->]%IH. by rewrite append_assoc. }
      cbn. destruct (nested_text c) as [t|];
        destruct (for_await_interview cs failure _ st) as [[r st1] ev1] eqn:E;
        intros [= -> -> _]; apply IH in E as [-> ->];
        by rewrite ?append_assoc.
Qed.

(** ** The shape of a validated [/interview] request *)

Lemma interview_invalid (gemini : Interview.Gemini) (req : Interview.Request)
    (st : State) :
  Interview.validated req = false →
  Interview.interview gemini req st =
  (Normal {| status := 400; body := ErrorBody Interview.missing_message |}, st, []).
Proof.
  unfold Interview.validated, Interview.interview. intros H.
  destruct (truthy (Interview.sessionId req)); [|done].
  destruct (truthy (Interview.jobTitle req)); [|done].
  cbn in *. apply negb_false_iff in H. by rewrite H.
Qed.

Lemma interview_validated (gemini : Interview.Gemini) (req : Interview.Request)
    (st : State) :
  Interview.validated req = true →
  ∃ l st1,
    get_or_new (Interview.sessionId req) st = (Normal l, st1, []) ∧
    let stored := stored_history st (Interview.sessionId req) in
    let h := toContent <$> stored in
    let m := Interview.message_sent st req in
    let failed :=
      {| status := 500; body := ErrorBody Interview.failure_message |} in
    Interview.interview gemini req st =
    match gemini (Interview.systemInstruction (Interview.jobTitle req)) h m with
    | Rejected e => (Normal failed, st1, [SendMessageStream h m; ConsoleError e])
    | Streaming s =>
        match for_await_interview (chunks s) (stream_failure s) "" st1 with
        | (Normal reply, _, ev) =>
            let recorded :=
              negb (strict_eq (Interview.userResponse req)
                      (VStr Interview.start_interview)) in
            let asked := {| role := user; text := Interview.userResponse req |} in
            (Normal {| status := 200;
                       body := ChatBody reply
                         (stored ++ (if recorded then [asked] else [])
                                 ++ [model_turn reply]) |},
             bound (Interview.sessionId req) l
               (pushed l (model_turn reply)
                  (if recorded then pushed l asked st1 else st1)),
             SendMessageStream h m :: ev)
        | (Thrown e, _, ev) =>
            (Normal failed, st1, SendMessageStream h m :: ev ++ [ConsoleError e])
        end
    end.
Proof.
  unfold Interview.validated.
  intros [[Hs Hj]%andb_prop Hu]%andb_prop. apply negb_true_iff in Hu.
  destruct (get_or_new_spec (Interview.sessionId req) st)
    as (l & st1 & Hget & Hd & Hm).
  exists l, st1. split; [done|]. cbn zeta.
  unfold Interview.interview, Interview.message_sent. rewrite Hs, Hj, Hu.
  cbn [negb orb andb].
  unfold mbind at 1, M_bind at 1. rewrite Hget. rewrite <- Hd.
  munfold. cbn.
  destruct (length (deref st1 l) =? 0)%nat;
    (destruct (gemini _ _ _) as [e|s]; cbn; [reflexivity|];
     rewrite (for_await_interview_indep _ _ _ st1 init);
     destruct (for_await_interview _ _ _ init) as [[[reply|e] st'] ev];
     unfold result_of, events_of; cbn [fst snd]; [|reflexivity];
     destruct (strict_eq (Interview.userResponse req)
                 (VStr Interview.start_interview)); cbn;
     rewrite deref_bound, !deref_pushed, <- ?app_assoc, app_nil_r;
     reflexivity).
Qed.

Lemma interview_observed (gemini : Interview.Gemini) (req : Interview.Request)
    (st : State) :
  Interview.validated req = true →
  let r := Interview.interview gemini req st in
  let stored := stored_history st (Interview.sessionId req) in
  let h := toContent <$> stored in
  let m := Interview.message_sent st req in
  let failed := {| status := 500; body := ErrorBody Interview.failure_message |} in
  let unchanged :=
    chatHistories (state_after r) = chatHistories st ∧
    ∀ s, stored_history (state_after r) s = stored_history st s in
  external_calls (events_of r) = [(h, m)] ∧
  match gemini (Interview.systemInstruction (Interview.jobTitle req)) h m with
  | Rejected e => result_of r = Normal failed ∧ unchanged
  | Streaming s =>
      match Interview.accumulated s with
      | Normal reply =>
          let hist :=
            stored
            ++ (if strict_eq (Interview.userResponse req)
                     (VStr Interview.start_interview)
                then [] else [ {| role := user; text := Interview.userResponse req |} ])
            ++ [model_turn reply] in
          result_of r = Normal {| status := 200; body := ChatBody reply hist |} ∧
          stored_history (state_after r) (Interview.sessionId req) = hist
      | Thrown e => result_of r = Normal failed ∧ unchanged
      end
  end.
Proof.
  intros Hv.
  destruct (interview_validated gemini req st Hv) as (l & st1 & Hget & Hrun).
  destruct (get_or_new_spec (Interview.sessionId req) st)
    as (l' & st1' & Hget' & Hd & Hm).
  rewrite Hget in Hget'. injection Hget' as <- <-.
  pose proof (get_or_new_same _ _ _ _ Hget) as Hsame.
  cbn zeta in *. unfold Interview.accumulated.
  destruct (gemini _ _ _) as [e|s]; [by rewrite Hrun|].
  rewrite (for_await_interview_indep _ _ _ st1 init) in Hrun.
  pose proof (for_await_interview_calls (chunks s) (stream_failure s) "" init) as Hc.
  destruct (for_await_interview _ _ _ init) as [[[reply|e] st'] ev];
    rewrite Hrun; unfold events_of, result_of, state_after in *;
    cbn [fst snd] in *;
    rewrite external_calls_send, ?external_calls_app, Hc; [|done].
  split; [done|].
  destruct (strict_eq (Interview.userResponse req) (VStr Interview.start_interview));
    cbn [negb]; (split; [done|]);
    by rewrite stored_history_bound, !deref_pushed, Hd, <- ?app_assoc.
Qed.

Lemma interview_touches (gemini : Interview.Gemini) (req : Interview.Request)
    (st : State) :
  Interview.validated req = true →
  ∃ l st1, get_or_new (Interview.sessionId req) st = (Normal l, st1, []) ∧
           touches (Interview.sessionId req) l st1
             (state_after (Interview.interview gemini req st)).
Proof.
  intros Hv.
  destruct (interview_validated gemini req st Hv) as (l & st1 & Hget & Hrun).
  exists l, st1. split; [done|]. cbn zeta in Hrun. rewrite Hrun. clear Hrun.
  destruct (gemini _ _ _) as [e|s]; [constructor|].
  destruct (for_await_interview _ _ _ _) as [[[reply|e] st'] ev]; [|constructor].
  unfold state_after; cbn [fst snd].
  apply touches_bind, touches_push.
  destruct (negb _); repeat constructor.
Qed.

Lemma interview_keeps (gemini : Interview.Gemini) (req : Interview.Request)
    (st : State) :
  well_formed st →
  well_formed (state_after (Interview.interview gemini req st)) ∧
  (∀ s, s ≠ Interview.sessionId req →
        stored_history (state_after (Interview.interview gemini req st)) s =
        stored_history st s).
Proof.
  intros Hwf. destruct (Interview.validated req) eqn:Hv.
  - destruct (interview_touches gemini req st Hv) as (l & st1 & Hget & Ht).
    destruct (get_or_new_owned _ _ _ _ Hwf Hget) as (Hwf1 & Hown & Hsame).
    destruct (touches_keeps _ _ _ _ Ht Hwf1 Hown) as (Hwf' & _ & Hframe).
    split; [done|]. intros s Hs. by rewrite Hframe, Hsame.
  - by rewrite (interview_invalid _ _ _ Hv).
Qed.

Lemma interview_serve_well_formed
    (rs : list (Interview.Gemini * Interview.Request)) (st : State) :
  well_formed st → well_formed (Interview.serve rs st).
Proof.
  revert st. induction rs as [|[gemini req] rs IH]; intros st Hwf; [done|].
  cbn. by apply IH, interview_keeps.
Qed.

(** ** Substrings *)

Lemma prefix_split (a s : string) :
  String.prefix a s = true ↔ ∃ post, s = a +:+ post.
Proof.
  revert s. induction a as [|x a IH]; intros [|y s]; cbn.
  - split; [by exists "" | done].
  - split; [by exists (String y s) | done].
  - split; [done | by intros [post [=]]].
  - destruct (Ascii.ascii_dec x y) as [->|Hne].
    + rewrite IH. split; intros [post E]; exists post.
      * by rewrite append_cons, <- E.
      * rewrite append_cons in E. by injection E.
    + split; [done|]. intros [post E]. rewrite append_cons in E.
      by injection E as -> _.
Qed.

(** [includes] is substring search. *)
Lemma includes_split (s sub : string) :
  includes s sub = true ↔ ∃ pre post, s = pre +:+ sub +:+ post.
Proof.
  induction s as [|x s IH]; cbn [includes].
  - rewrite orb_false_r, prefix_split. split.
    + intros [post E]. by exists "", post.
    + intros ([|y pre] & post & E); [by exists post|].
      by rewrite append_cons in E.
  - rewrite orb_true_iff, prefix_split, IH. split.
    + intros [[post E]|(pre & post & E)].
      * by exists "", post.
      * exists (String x pre), post. by rewrite append_cons, <- E.
    + intros ([|y pre] & post & E).
      * left. by exists post.
      * right. exists pre, post. rewrite append_cons in E. by injection E.
Qed.

(** ** [/chat]: sessions, answers and failures *)

(** X1.  In a store reached by serving [/chat] requests, a further request
    leaves the stored history of every other session as it was. *)
Theorem chat_sessions_are_isolated (rs : list (Gemini * Request))
    (gemini : Gemini) (req : Request) (s : JsVal) :
  s ≠ sessionId req →
  stored_history (state_after (chat gemini req (serve rs init))) s =
  stored_history (serve rs init) s.
Proof.
  intros Hs. by apply chat_keeps; [apply serve_well_formed, well_formed_init|].
Qed.

Lemma chat_sessions_are_isolated_witness :
  stored_history
    (state_after (chat (answers ["Hello!"]) hello_request
                    (serve [(answers ["Hi, "; "I'm Tina."], open_request)] init))) s1 =
  stored_history (serve [(answers ["Hi, "; "I'm Tina."], open_request)] init) s1.
Proof.
  apply (chat_sessions_are_isolated
           [(answers ["Hi, "; "I'm Tina."], open_request)]
           (answers ["Hello!"]) hello_request s1).
  by vm_compute.
Defined.

(** X2.  In every store reached by serving requests, of [/chat] or of
    [/interview], each session's reference is a live array and no two
    sessions share an array. *)
Theorem served_stores_are_well_formed :
  (∀ rs, well_formed (serve rs init)) ∧
  (∀ rs, well_formed (Interview.serve rs init)).
Proof.
  split; intros rs;
    [apply serve_well_formed | apply interview_serve_well_formed];
    apply well_formed_init.
Qed.





(** X5.  A [/chat] turn that fails changes no binding of [chatHistories]: no
    session is created and none is bound to another array. *)
Theorem failed_turn_binds_nothing (gemini : Gemini) (req : Request) (st : State)
    (h : list Content) (m : JsVal) (e : Error) :
  validated req = true →
  external_calls (events_of (chat gemini req st)) = [(h, m)] →
  service_failure gemini h m = Some e →
  chatHistories (state_after (chat gemini req st)) = chatHistories st.
Proof.
  intros Hv Hc Hf.
  pose proof (chat_observed gemini req st Hv) as Ho. cbn zeta in Ho.
  unfold outgoing in Ho.
  destruct (chat_validated gemini req st Hv) as (l & st1 & Hget & Hchat).
  destruct (get_or_new_spec (sessionId req) st) as (l' & st1' & Hget' & _ & Hm).
  rewrite Hget in Hget'. injection Hget' as <- <-. cbn zeta in Hchat.
  assert (chatHistories
            (if initial_contact st req then st1 else pushed l (user_turn req) st1)
          = chatHistories st) as H2 by (by destruct (initial_contact st req)).
  assert ((if initial_contact st req then [] else
             toContent <$> stored_history st (sessionId req) ++ [user_turn req],
           if initial_contact st req then VStr start_conversation
           else userResponse req) = (h, m)) as E.
  { destruct (initial_contact st req); destruct Ho as [Ho _];
      rewrite Hc in Ho; by injection Ho as <- <-. }
  injection E as Eh Em. rewrite Eh, Em in Hchat. unfold service_failure in Hf.
  destruct (gemini h m) as [e'|s]; [by rewrite Hchat|].
  unfold accumulated in Hf.
  rewrite (for_await_chat_indep _ _ _ _ init) in Hchat.
  destruct (for_await_chat _ _ _ init) as [[[reply|e'] st'] ev]; [done|].
  by rewrite Hchat.
Qed.

Lemma failed_turn_binds_nothing_witness :
  chatHistories (state_after (chat (rejects unavailable) hello_request after_opening))
  = chatHistories after_opening.
Proof.
  apply (failed_turn_binds_nothing (rejects unavailable) hello_request after_opening
           [toContent {| role := user; text := VStr "Hello" |}] (VStr "Hello")
           unavailable); reflexivity.
Defined.

(** ** [/chat]: the fragment loop and the error message *)

(** X6.  While [text()] of every fragment returns, the loop of [/chat] never
    aborts: it yields the accumulator extended by the fragments' texts and
    logs one warning for each fragment without a string, in order. *)
Theorem returning_fragments_never_abort (cs : list Chunk) (acc : string)
    (st : State) :
  Forall text_returns cs →
  for_await_chat cs None acc st =
  (Normal (acc +:+ String.concat "" (extracted_text <$> cs)), st, warnings cs).
Proof.
  intros Hcs. revert acc.
  induction Hcs as [|c cs [v Hc] _ IH]; intros acc.
  - cbn. munfold. by rewrite append_nil_r.
  - rewrite fmap_cons, concat_cons. cbn [for_await_chat].
    unfold call_text, warnings, extracted_text. cbn [omap list_omap].
    rewrite Hc. munfold. cbn.
    destruct (String.eqb (js_typeof v) "string"); cbn.
    + rewrite IH. by rewrite append_assoc.
    + rewrite IH. reflexivity.
Qed.

Lemma returning_fragments_never_abort_witness :
  for_await_chat [fragment "a"; degraded_fragment; fragment "b"] None "" init =
  (Normal "ab", init, [ConsoleWarn "undefined" VUndefined]).
Proof.
  rewrite (returning_fragments_never_abort
             [fragment "a"; degraded_fragment; fragment "b"] "" init);
    [reflexivity|].
  repeat constructor; by eexists.
Defined.

(** X7.  The loop of [/chat] stops at the first fragment whose [text()]
    throws (or whose [text] is no method): the accumulation ends with that
    error whatever was accumulated, whatever fragments follow and however
    the stream would have ended. *)
Theorem throwing_fragment_aborts (pre rest : list Chunk) (c : Chunk)
    (failure : option Error) (e : Error) :
  Forall text_returns pre →
  result_of (call_text c init) = Thrown e →
  accumulated {| chunks := pre ++ c :: rest; stream_failure := failure |} =
  Thrown e.
Proof.
  intros Hpre Hc. unfold accumulated. cbn [chunks stream_failure].
  generalize "". induction Hpre as [|p pre [v Hp] _ IH]; intros acc.
  - cbn [app for_await_chat]. munfold.
    destruct (call_text c init) as [[[v|e'] st'] ev]; cbn in *; congruence.
  - cbn [app for_await_chat]. unfold call_text at 1. rewrite Hp. munfold. cbn.
    destruct (String.eqb (js_typeof v) "string"); cbn.
    + specialize (IH (acc +:+ to_string v)).
      by destruct (for_await_chat _ _ _ init) as [[r st'] ev].
    + specialize (IH acc).
      by destruct (for_await_chat _ _ _ init) as [[r st'] ev].
Qed.

Lemma throwing_fragment_aborts_witness :
  accumulated {| chunks := [fragment "Hi"] ++ blocked_fragment unavailable
                             :: [fragment "!"];
                 stream_failure := None |} = Thrown unavailable.
Proof.
  apply (throwing_fragment_aborts [fragment "Hi"] [fragment "!"]
           (blocked_fragment unavailable) None unavailable); [|reflexivity].
  repeat constructor; by eexists.
Defined.

(** A failed turn is answered with [error_response]. *)
Lemma service_failure_is_reported_general (gemini : Gemini) (req : Request)
    (st : State) (h : list Content) (m : JsVal) (e : Error) :
  validated req = true →
  external_calls (events_of (chat gemini req st)) = [(h, m)] →
  service_failure gemini h m = Some e →
  result_of (chat gemini req st) = Normal (error_response e).
Proof.
  intros Hv Hc Hf.
  pose proof (chat_observed gemini req st Hv) as H. cbn zeta in H.
  destruct (outgoing st req) as [h' m']. destruct H as [Hc' H].
  rewrite Hc in Hc'. injection Hc' as <- <-.
  unfold service_failure in Hf.
  destruct (gemini h m) as [e'|s].
  - injection Hf as ->. by destruct H.
  - destruct (accumulated s); [done|]. injection Hf as ->. by destruct H.
Qed.

(** X8.  A failed [/chat] turn is answered 500 with the refresh message when
    the role-order marker occurs somewhere in the error's message, with any
    text before and after it, and 500 with the retry message when it occurs
    nowhere in it. *)
Theorem refresh_message_iff_marker_occurs (gemini : Gemini) (req : Request)
    (st : State) (h : list Content) (m : JsVal) (e : Error) :
  validated req = true →
  external_calls (events_of (chat gemini req st)) = [(h, m)] →
  service_failure gemini h m = Some e →
  let occurs := ∃ pre post,
    message e = pre +:+ "First content should be with role 'user', got model"
                    +:+ post in
  (occurs →
   result_of (chat gemini req st) =
     Normal {| status := 500;
               body := ErrorBody "There was an internal chat history synchronization issue. Please refresh the page and try again." |}) ∧
  (¬ occurs →
   result_of (chat gemini req st) =
     Normal {| status := 500;
               body := ErrorBody "Failed to get a response from Tina. Please try again." |}).
Proof.
  intros Hv Hc Hf occurs.
  rewrite (service_failure_is_reported_general gemini req st h m e Hv Hc Hf).
  unfold error_response.
  pose proof (includes_split (message e) role_order_marker) as Hi.
  fold occurs in Hi. change (includes (message e) role_order_marker = true ↔ occurs) in Hi.
  destruct (includes (message e) role_order_marker); split; intros Ho; try done.
  - destruct Ho. by apply Hi.
  - by apply Hi in Ho.
Qed.

Lemma refresh_message_iff_marker_occurs_witness :
  result_of (chat (rejects {| message := "[400 Bad Request] First content should be with role 'user', got model" |})
               yes_request after_opening) =
    Normal {| status := 500; body := ErrorBody resync_message |} ∧
  result_of (chat (rejects unavailable) yes_request after_opening) =
    Normal {| status := 500; body := ErrorBody retry_message |}.
Proof.
  split.
  - apply (refresh_message_iff_marker_occurs
             (rejects {| message := "[400 Bad Request] First content should be with role 'user', got model" |})
             yes_request after_opening
             (toContent <$> (stored_history after_opening s1 ++ [user_turn yes_request]))
             (VStr "Yes, go ahead")
             {| message := "[400 Bad Request] First content should be with role 'user', got model" |}
             eq_refl eq_refl eq_refl).
    by exists "[400 Bad Request] ", "".
  - apply (refresh_message_iff_marker_occurs (rejects unavailable)
             yes_request after_opening
             (toContent <$> (stored_history after_opening s1 ++ [user_turn yes_request]))
             (VStr "Yes, go ahead") unavailable eq_refl eq_refl eq_refl).
    intros Ho. apply includes_split in Ho. by vm_compute in Ho.
Defined.

(** ** [/interview] *)

Lemma interview_answers (gemini : Interview.Gemini) (req : Interview.Request)
    (st : State) :
  ∃ resp, result_of (Interview.interview gemini req st) = Normal resp ∧
          (Interview.validated req = false ∧ status resp = 400 ∨
           Interview.validated req = true ∧ (status resp = 500 ∨ status resp = 200)).
Proof.
  destruct (Interview.validated req) eqn:Hv.
  - pose proof (interview_observed gemini req st Hv) as H. cbn zeta in H.
    destruct H as [_ H].
    destruct (gemini _ _ _) as [e|s]; [|destruct (Interview.accumulated s)];
      destruct H as [-> _]; eexists; (split; [done|]); right; cbn; auto.
  - rewrite (interview_invalid _ _ _ Hv). eexists; split; [done|]. by left.
Qed.

(** X9.  [/interview] answers every request, and with 400 exactly when
    [sessionId] or [jobTitle] is falsy or [userResponse] is [undefined]; a
    400 answer carries the fixed error text, and the request has then made
    no external call, logged nothing and left the store as it was. *)
Theorem interview_validation (gemini : Interview.Gemini)
    (req : Interview.Request) (st : State) :
  ∃ resp,
    result_of (Interview.interview gemini req st) = Normal resp ∧
    (status resp = 400 ↔
     truthy (Interview.sessionId req) = false ∨
     truthy (Interview.jobTitle req) = false ∨
     Interview.userResponse req = VUndefined) ∧
    (status resp = 400 →
     body resp = ErrorBody "Missing sessionId, jobTitle, or userResponse" ∧
     events_of (Interview.interview gemini req st) = [] ∧
     state_after (Interview.interview gemini req st) = st).
Proof.
  assert (Interview.validated req = false ↔
          truthy (Interview.sessionId req) = false ∨
          truthy (Interview.jobTitle req) = false ∨
          Interview.userResponse req = VUndefined) as Hv.
  { unfold Interview.validated, strict_eq.
    destruct (truthy (Interview.sessionId req)); cbn; [|split; [by left | done]].
    destruct (truthy (Interview.jobTitle req)); cbn;
      [|split; [by right; left | done]].
    rewrite negb_false_iff, bool_decide_eq_true.
    split; [by right; right | by intros [|[|]]]. }
  destruct (interview_answers gemini req st) as (resp & Hr & [[Hf Hs]|[Ht Hs]]);
    exists resp; (split; [done|]).
  - split; [by rewrite <- Hv|]. intros _.
    rewrite (interview_invalid _ _ _ Hf) in *. by injection Hr as <-.
  - split; [|lia]. rewrite <- Hv, Ht. split; [lia | done].
Qed.

(** X10.  A validated [/interview] request makes one call.  Its history is
    the stored history of the session, converted entry by entry, without the
    utterance of this request; its message is [userResponse], except on the
    first turn of a session with a falsy [userResponse], where it is
    "start interview". *)
Theorem interview_call (gemini : Interview.Gemini) (req : Interview.Request)
    (st : State) :
  Interview.validated req = true →
  let stored := stored_history st (Interview.sessionId req) in
  external_calls (events_of (Interview.interview gemini req st)) =
    [(toContent <$> stored,
      if bool_decide (stored = []) && negb (truthy (Interview.userResponse req))
      then VStr "start interview" else Interview.userResponse req)].
Proof.
  intros Hv. pose proof (interview_observed gemini req st Hv) as H.
  cbn zeta in *. destruct H as [-> _]. unfold Interview.message_sent.
  destruct (stored_history st (Interview.sessionId req)); cbn; [|done].
  by destruct (truthy (Interview.userResponse req)).
Qed.

Lemma interview_call_witness :
  external_calls (events_of (Interview.interview (interviewer ["Tell me about yourself."])
                               (nurse_request (VStr "")) init)) =
    [(toContent <$> stored_history init s1,
      if bool_decide (stored_history init s1 = []) && negb (truthy (VStr ""))
      then VStr "start interview" else VStr "")].
Proof.
  apply (interview_call (interviewer ["Tell me about yourself."])
           (nurse_request (VStr "")) init). reflexivity.
Defined.

(** X11.  A failed [/interview] turn, whether the call is rejected or the
    accumulation of its reply throws, is answered 500 with the fixed error
    text and leaves the store's bindings and the stored history of every
    session as they were: the turns are pushed only after the reply. *)
Theorem interview_failure_changes_nothing (gemini : Interview.Gemini)
    (req : Interview.Request) (st : State) (e : Error) :
  Interview.validated req = true →
  let r := Interview.interview gemini req st in
  let answer := gemini (Interview.systemInstruction (Interview.jobTitle req))
                  (toContent <$> stored_history st (Interview.sessionId req))
                  (Interview.message_sent st req) in
  answer = Rejected e ∨
    (∃ s, answer = Streaming s ∧ Interview.accumulated s = Thrown e) →
  result_of r =
    Normal {| status := 500;
              body := ErrorBody "Failed to get response from AI interviewer." |} ∧
  chatHistories (state_after r) = chatHistories st ∧
  ∀ s, stored_history (state_after r) s = stored_history st s.
Proof.
  intros Hv r answer Hfail.
  pose proof (interview_observed gemini req st Hv) as H. cbn zeta in H.
  destruct H as [_ H]. fold answer r in H.
  destruct Hfail as [Hf|(s & Hf & Ha)]; rewrite Hf in H; [|rewrite Ha in H];
    by destruct H as (? & ? & ?).
Qed.

Lemma interview_failure_changes_nothing_witness :
  let st := state_after (Interview.interview (interviewer ["Tell me about yourself."])
                           (nurse_request (VStr "")) init) in
  let r := Interview.interview absent_interviewer (nurse_request (VStr "I am a nurse.")) st in
  result_of r =
    Normal {| status := 500;
              body := ErrorBody "Failed to get response from AI interviewer." |} ∧
  chatHistories (state_after r) = chatHistories st ∧
  ∀ s, stored_history (state_after r) s = stored_history st s.
Proof.
  apply (interview_failure_changes_nothing absent_interviewer
           (nurse_request (VStr "I am a nurse."))
           (state_after (Interview.interview (interviewer ["Tell me about yourself."])
                           (nurse_request (VStr "")) init))
           unavailable); [reflexivity | by left].
Defined.

(** X12.  When the reply of a validated [/interview] request is accumulated
    and [userResponse] is not the string "start interview", the answer is
    200, the session stores its old history followed by the [user] turn of
    the request (its [userResponse] as received, also when the model was
    sent "start interview" in its place) and by the [model] reply, and the
    answer's [history] is that stored history. *)
Theorem interview_success (gemini : Interview.Gemini) (req : Interview.Request)
    (st : State) (s : Stream) (reply : string) :
  Interview.validated req = true →
  Interview.userResponse req ≠ VStr "start interview" →
  gemini (Interview.systemInstruction (Interview.jobTitle req))
    (toContent <$> stored_history st (Interview.sessionId req))
    (Interview.message_sent st req) = Streaming s →
  Interview.accumulated s = Normal reply →
  let r := Interview.interview gemini req st in
  let hist := stored_history st (Interview.sessionId req)
                ++ [ {| role := user; text := Interview.userResponse req |};
                     {| role := model; text := VStr reply |} ] in
  result_of r = Normal {| status := 200; body := ChatBody reply hist |} ∧
  stored_history (state_after r) (Interview.sessionId req) = hist.
Proof.
  intros Hv Hu Hg Ha. cbn zeta.
  pose proof (interview_observed gemini req st Hv) as H. cbn zeta in H.
  destruct H as [_ H]. rewrite Hg, Ha in H. unfold strict_eq in H.
  rewrite (bool_decide_eq_false_2 _ Hu) in H. done.
Qed.

Lemma interview_success_witness :
  let r := Interview.interview (interviewer ["Tell me "; "about yourself."])
             (nurse_request (VStr "")) init in
  let hist := stored_history init s1
                ++ [ {| role := user; text := VStr "" |};
                     {| role := model; text := VStr "Tell me about yourself." |} ] in
  result_of r =
    Normal {| status := 200; body := ChatBody "Tell me about yourself." hist |} ∧
  stored_history (state_after r) s1 = hist.
Proof.
  apply (interview_success (interviewer ["Tell me "; "about yourself."])
           (nurse_request (VStr "")) init
           {| chunks := fragment <$> ["Tell me "; "about yourself."];
              stream_failure := None |});
    [reflexivity | done | reflexivity | reflexivity].
Defined.

(** X13.  When [userResponse] is the string "start interview" itself, a
    successful [/interview] turn records no [user] turn: the session's
    history grows by the [model] reply alone, so a session opened this way
    stores a history that starts with a [model] turn. *)
Theorem start_interview_is_not_recorded (gemini : Interview.Gemini)
    (req : Interview.Request) (st : State) (s : Stream) (reply : string) :
  Interview.validated req = true →
  Interview.userResponse req = VStr "start interview" →
  gemini (Interview.systemInstruction (Interview.jobTitle req))
    (toContent <$> stored_history st (Interview.sessionId req))
    (VStr "start interview") = Streaming s →
  Interview.accumulated s = Normal reply →
  let after := stored_history
                 (state_after (Interview.interview gemini req st))
                 (Interview.sessionId req) in
  after = stored_history st (Interview.sessionId req)
            ++ [ {| role := model; text := VStr reply |} ] ∧
  (stored_history st (Interview.sessionId req) = [] →
   alternates user after = false).
Proof.
  intros Hv Hu Hg Ha. cbn zeta.
  pose proof (interview_observed gemini req st Hv) as H. cbn zeta in H.
  destruct H as [_ H].
  assert (Interview.message_sent st req = VStr "start interview") as Hm.
  { unfold Interview.message_sent. rewrite Hu.
    by destruct (length _ =? 0)%nat. }
  rewrite Hm, Hg, Ha, Hu in H. destruct H as [_ ->]. split; [done|].
  by intros ->.
Qed.

Lemma start_interview_is_not_recorded_witness :
  let after := stored_history
                 (state_after (Interview.interview (interviewer ["Tell me about yourself."])
                                 (nurse_request (VStr "start interview")) init))
                 s1 in
  after = stored_history init s1
            ++ [ {| role := model; text := VStr "Tell me about yourself." |} ] ∧
  (stored_history init s1 = [] → alternates user after = false).
Proof.
  apply (start_interview_is_not_recorded (interviewer ["Tell me about yourself."])
           (nurse_request (VStr "start interview")) init
           {| chunks := fragment <$> ["Tell me about yourself."];
              stream_failure := None |}); reflexivity.
Defined.

(** X14.  Where the numbers a stream's fragments may hold are safe
    integers, a 200 answer of [/interview] comes from one call whose stream
    ended without failure, and its [response] is the concatenation, in order
    and with nothing in between, of the text [/interview] takes from each
    fragment of that stream. *)
Theorem interview_response_is_concatenation (gemini : Interview.Gemini)
    (req : Interview.Request) (st : State) (resp : Response) :
  (∀ sys h m s, gemini sys h m = Streaming s →
                forallb printable_fragment (chunks s) = true) →
  result_of (Interview.interview gemini req st) = Normal resp →
  status resp = 200 →
  ∃ h m s history,
    external_calls (events_of (Interview.interview gemini req st)) = [(h, m)] ∧
    gemini (Interview.systemInstruction (Interview.jobTitle req)) h m = Streaming s ∧
    stream_failure s = None ∧
    body resp =
      ChatBody (String.concat "" (interview_text <$> chunks s)) history.
Proof.
  intros _ Hr Hs. destruct (Interview.validated req) eqn:Hv.
  - pose proof (interview_observed gemini req st Hv) as H. cbn zeta in H.
    destruct H as [Hc H].
    exists (toContent <$> stored_history st (Interview.sessionId req)),
      (Interview.message_sent st req).
    destruct (gemini _ _ _) as [e|s] eqn:Hg.
    { destruct H as [H _]. rewrite H in Hr. by injection Hr as <-. }
    destruct (Interview.accumulated s) as [reply|e] eqn:E; destruct H as [H _];
      rewrite H in Hr; injection Hr as <-; [|done].
    unfold Interview.accumulated, result_of in E.
    destruct (for_await_interview _ _ _ init) as [[o st'] ev] eqn:E'.
    cbn in E. subst o. apply for_await_interview_normal in E' as [Hf ->].
    eexists s, _. done.
  - rewrite (interview_invalid _ _ _ Hv) in Hr. by injection Hr as <-.
Qed.

Lemma interview_response_is_concatenation_witness :
  ∃ h m s history,
    external_calls (events_of (Interview.interview
                                 (λ _ _ _, Streaming {| chunks := [textless_fragment; fragment "!"];
                                                        stream_failure := None |})
                                 (nurse_request (VStr "Hi")) init)) = [(h, m)] ∧
    (λ _ _ _, Streaming {| chunks := [textless_fragment; fragment "!"];
                           stream_failure := None |})
      (Interview.systemInstruction (VStr "Nurse")) h m = Streaming s ∧
    stream_failure s = None ∧
    ChatBody "hello!" [ {| role := user; text := VStr "Hi" |};
                        {| role := model; text := VStr "hello!" |} ] =
      ChatBody (String.concat "" (interview_text <$> chunks s)) history.
Proof.
  apply (interview_response_is_concatenation
           (λ _ _ _, Streaming {| chunks := [textless_fragment; fragment "!"];
                                  stream_failure := None |})
           (nurse_request (VStr "Hi")) init
           {| status := 200;
              body := ChatBody "hello!"
                        [ {| role := user; text := VStr "Hi" |};
                          {| role := model; text := VStr "hello!" |} ] |});
    [by intros sys h m s [= <-] | reflexivity | reflexivity].
Defined.

(** X15.  In a store reached by serving [/interview] requests, a further
    request leaves the stored history of every other session as it was. *)
Theorem interview_sessions_are_isolated
    (rs : list (Interview.Gemini * Interview.Request))
    (gemini : Interview.Gemini) (req : Interview.Request) (s : JsVal) :
  s ≠ Interview.sessionId req →
  stored_history
    (state_after (Interview.interview gemini req (Interview.serve rs init))) s =
  stored_history (Interview.serve rs init) s.
Proof.
  intros Hs.
  by apply interview_keeps; [apply interview_serve_well_formed, well_formed_init|].
Qed.

Lemma interview_sessions_are_isolated_witness :
  let served := Interview.serve
                  [(interviewer ["Tell me about yourself."], clerk_request (VStr ""))]
                  init in
  stored_history
    (state_after (Interview.interview (interviewer ["Why nursing?"])
                    (nurse_request (VStr "Hello")) served)) s2 =
  stored_history served s2 ∧
  stored_history served s2 =
    [ {| role := user; text := VStr "" |};
      {| role := model; text := VStr "Tell me about yourself." |} ].
Proof.
  split; [|reflexivity].
  apply (interview_sessions_are_isolated
           [(interviewer ["Tell me about yourself."], clerk_request (VStr ""))]
           (interviewer ["Why nursing?"]) (nurse_request (VStr "Hello")) s2).
  by vm_compute.
Defined.

(** ** [/chat]: a failed first request *)

(** X16.  In a store reached by serving [/chat] requests, a failed turn for
    a session that is not yet in [chatHistories] leaves the stored history
    of every session as it was, so the request can be repeated as it is. *)
Theorem failed_first_request_changes_nothing (rs : list (Gemini * Request))
    (gemini : Gemini) (req : Request) (h : list Content) (m : JsVal) (e : Error) :
  validated req = true →
  chatHistories (serve rs init) !! sessionId req = None →
  external_calls (events_of (chat gemini req (serve rs init))) = [(h, m)] →
  service_failure gemini h m = Some e →
  ∀ s, stored_history (state_after (chat gemini req (serve rs init))) s =
       stored_history (serve rs init) s.
Proof.
  intros Hv Hnew Hc Hf s. set (st := serve rs init) in *.
  destruct (decide (s = sessionId req)) as [->|Hs].
  - pose proof (chat_observed gemini req st Hv) as Ho. cbn zeta in Ho.
    destruct (outgoing st req) as [h' m'] eqn:Eo. destruct Ho as [Hc' _].
    rewrite Hc in Hc'. injection Hc' as <- <-.
    rewrite (failed_turn_history gemini req st h m e Hv Eo Hf).
    unfold left_behind, stored_history. rewrite Hnew.
    by destruct (initial_contact st req).
  - by apply chat_keeps; [apply serve_well_formed, well_formed_init|].
Qed.

Lemma failed_first_request_changes_nothing_witness :
  stored_history
    (state_after (chat (rejects unavailable) hello_request
                    (serve [(answers ["Hi, "; "I'm Tina."], open_request)] init))) s2 =
  stored_history (serve [(answers ["Hi, "; "I'm Tina."], open_request)] init) s2.
Proof.
  apply (failed_first_request_changes_nothing
           [(answers ["Hi, "; "I'm Tina."], open_request)]
           (rejects unavailable) hello_request
           [toContent {| role := user; text := VStr "Hello" |}] (VStr "Hello")
           unavailable); reflexivity.
Defined.
